(** * The prefix filter of py_stringsimjoin

    A shallow embedding of [py_stringsimjoin/filter/prefix_filter.py]
    (class [PrefixFilter], methods [filter_pair] and [filter_tables]) and
    of the helpers it imports, followed by the properties of the filter
    that its design document states.

    Conventions.
    - A cell of a pandas row is a [value]: [None], a string or an integer.
    - Python's [set] is a [gset].  A [for] loop over a set visits its
      members in an order that Python leaves open: it varies with the
      insertions made and with the hash seed of the interpreter.
      [probe_row_in] takes that order as a parameter; [probe_row] is its
      instance at [elements], used where only the rows as a set matter.
    - Python's [dict] keeps insertion order and overwrites in place: it is
      an association list, see [dict_set].
    - A raised exception is the [Err] of the [result] monad. *)

From Stdlib Require Import ZArith String Ascii.
From stdpp Require Import base option list sets gmap strings sorting pretty.

Set Warnings "-clear-no-such-hyp".

Local Open Scope string_scope.
Local Open Scope list_scope.
Local Open Scope nat_scope.

(** ** Python values, exceptions *)

Inductive value :=
  | VNone
  | VStr (s : string)
  | VInt (z : Z).

Global Instance value_eq_dec : EqDecision value.
Proof. solve_decision. Defined.

Global Instance value_inhabited : Inhabited value := populate VNone.

Definition value_encode (v : value) : unit + (string + Z) :=
  match v with
  | VNone => inl ()
  | VStr s => inr (inl s)
  | VInt z => inr (inr z)
  end.

Definition value_decode (x : unit + (string + Z)) : value :=
  match x with
  | inl _ => VNone
  | inr (inl s) => VStr s
  | inr (inr z) => VInt z
  end.

Global Instance value_countable : Countable value.
Proof.
  apply (inj_countable' value_encode value_decode).
  by intros [].
Defined.

(** [str(v)]: the text of a cell. [str(None)] is the four letters
    [None]. *)
Definition str (v : value) : string :=
  match v with
  | VNone => "None"
  | VStr s => s
  | VInt z => pretty z
  end.

(** [not s] for a string that may be [None]: true on [None] and on the
    empty string. *)
Definition py_not (s : option string) : bool :=
  match s with
  | None => true
  | Some s => bool_decide (s = EmptyString)
  end.

(** The string behind a value that [py_not] found non-empty. *)
Definition the_string (s : option string) : string := default EmptyString s.

Inductive exn :=
  | ValueError (missing : string)     (* [list.index]: name not in list *)
  | KeyError (key : value)            (* [dict[key]]: key not in dict *)
  | OrderingError (tok : string).     (* a token without a rank *)

(** The design document's name for the failure of a column lookup. *)
Definition UnknownField : string → exn := ValueError.

Inductive result (A : Type) :=
  | Ok (a : A)
  | Err (e : exn).
Arguments Ok {A} a.
Arguments Err {A} e.

Global Instance result_ret : MRet result := λ A a, Ok a.
Global Instance result_bind : MBind result := λ A B f m,
  match m with Ok a => f a | Err e => Err e end.
Global Instance result_fmap : FMap result := λ A B f m,
  match m with Ok a => Ok (f a) | Err e => Err e end.

(** A [for] loop over [l] that threads the loop's variables [s] and stops
    at the first exception, leaving the variables as they were then. *)
Fixpoint for_each {S A} (body : S → A → S * option exn) (s : S) (l : list A)
    : S * option exn :=
  match l with
  | [] => (s, None)
  | x :: l =>
      match body s x with
      | (s', None) => for_each body s' l
      | (s', Some e) => (s', Some e)
      end
  end.

(** A map whose function may raise. *)
Fixpoint mapR {A B} (f : A → result B) (l : list A) : result (list B) :=
  match l with
  | [] => Ok []
  | x :: l => y ← f x; ys ← mapR f l; Ok (y :: ys)
  end.

(** ** Tokens and the token ordering *)

Abbreviation token := string.
Abbreviation row := (list value).

(** [set(tokens)] *)
Definition token_set (tokens : list token) : gset token := list_to_set tokens.

(** Modelled from the spec: the token ordering of
    [py_stringsimjoin/utils/token_ordering.py], which is not part of the
    sources at hand.  "Count, for each distinct token, the number of token
    sets that contain it; sort distinct tokens by (frequency ascending,
    token value ascending) and assign ranks 0..N-1 in that order." *)
Definition token_freq (token_sets : list (gset token)) (t : token) : nat :=
  length (filter (λ s, t ∈ s) token_sets).

Definition freq_token_le (a b : nat * token) : Prop :=
  (a.1 < b.1)%nat ∨ (a.1 = b.1 ∧ String.le a.2 b.2).

Global Instance freq_token_le_dec a b : Decision (freq_token_le a b).
Proof. unfold freq_token_le. apply _. Defined.

Definition build_token_ordering (token_sets : list (gset token))
    : gmap token nat :=
  let distinct := elements (⋃ token_sets) in
  let sorted :=
    merge_sort freq_token_le
      ((λ t, (token_freq token_sets t, t)) <$> distinct) in
  list_to_map (zip (snd <$> sorted) (seq 0 (length sorted))).

(** Modelled from the spec: [gen_token_ordering_for_lists], the ordering
    for a list of token lists. *)
Definition gen_token_ordering_for_lists (token_lists : list (list token))
    : gmap token nat :=
  build_token_ordering (token_set <$> token_lists).

(** Modelled from the spec: [gen_token_ordering_for_tables], the ordering
    for record collections, a field selector per collection and a
    tokenizer: "tokenizer applied per record, tokens deduplicated per
    record before counting document frequency".  The text of a field is
    its [str], as in the probe loop of [filter_tables], so that the
    ordering is "built from a superset of tokens that will later be
    ordered". *)
Definition gen_token_ordering_for_tables
    (table_list : list (list row)) (attr_list : list nat)
    (tokenizer : string → list token) : gmap token nat :=
  build_token_ordering
    (mjoin ((λ ta : list row * nat,
               (λ r : row, token_set (tokenizer (str (r !!! ta.2)))) <$> ta.1)
            <$> zip table_list attr_list)).

Definition rank_le (a b : nat * token) : Prop := (a.1 ≤ b.1)%nat.

Global Instance rank_le_dec a b : Decision (rank_le a b).
Proof. unfold rank_le. apply _. Defined.

(** Modelled from the spec: [order_using_token_ordering], "a record's
    token set rendered as a sequence sorted by ascending rank"; a token
    without a rank is a contract violation and fails fast. *)
Definition rank_of (ordering : gmap token nat) (t : token)
    : result (nat * token) :=
  match ordering !! t with
  | Some r => Ok (r, t)
  | None => Err (OrderingError t)
  end.

Definition order_using_token_ordering
    (tokens : list token) (ordering : gmap token nat) : result (list token) :=
  ranked ← mapR (rank_of ordering) tokens;
  Ok (snd <$> merge_sort rank_le ranked).

(** ** Tables and dictionaries *)

(** A pandas data frame: its column names and its rows, each row a tuple
    with one cell per column ([itertuples(index=False)]). *)
Record DataFrame := {
  columns : list string;
  itertuples : list row;
}.

(** [columns.index(attr)] *)
Fixpoint list_index (attr : string) (cols : list string) : result nat :=
  match cols with
  | [] => Err (ValueError attr)
  | c :: cols =>
      if decide (c = attr) then Ok 0 else S <$> list_index attr cols
  end.

(** [d[k] = v] on an insertion-ordered dictionary: a known key keeps its
    place and takes the new value, a new key goes last. *)
Fixpoint dict_set {V} (d : list (value * V)) (k : value) (v : V)
    : list (value * V) :=
  match d with
  | [] => [(k, v)]
  | (k', v') :: d =>
      if decide (k' = k) then (k', v) :: d else (k', v') :: dict_set d k v
  end.

Fixpoint dict_lookup {V} (d : list (value * V)) (k : value) : option V :=
  match d with
  | [] => None
  | (k', v') :: d => if decide (k' = k) then Some v' else dict_lookup d k
  end.

(** [d[k]] *)
Definition dict_get {V} (d : list (value * V)) (k : value) : result V :=
  match dict_lookup d k with
  | Some v => Ok v
  | None => Err (KeyError k)
  end.

(** [d.values()] *)
Definition dict_values {V} (d : list (value * V)) : list V := snd <$> d.

(** [d = {}; for row in table.itertuples(): d[row[key_attr_index]] = row] *)
Definition build_dict (rows : list row) (key_attr_index : nat)
    : list (value * row) :=
  foldl (λ d r, dict_set d (r !!! key_attr_index) r) [] rows.

(** ** The filter *)

Section prefix_filter.
(** Thresholds are floats; nothing here computes with them. *)
Context {float : Type}.

(** Modelled from the spec: [get_prefix_length] of
    [py_stringsimjoin/filter/filter_utils.py], which is not part of the
    sources at hand: "prefix_length(n, measure, threshold)", a number of
    leading tokens.  It is a parameter of the development, and stands for
    the calculator at a measure that it supports: its failure at an
    unknown measure ends a call at once and is no part of the model. *)
Variable get_prefix_length : nat → string → float → nat.

Record PrefixFilter := {
  tokenizer : string → list token;
  sim_measure_type : string;
  threshold : float;
}.

(** *** [filter_pair] *)

Definition filter_pair (self : PrefixFilter) (lstring rstring : option string)
    : result bool :=
  (* check for empty string *)
  if py_not lstring || py_not rstring then Ok true else
  let ltokens := elements (token_set (tokenizer self (the_string lstring))) in
  let rtokens := elements (token_set (tokenizer self (the_string rstring))) in
  let token_ordering := gen_token_ordering_for_lists [ltokens; rtokens] in
  ordered_ltokens ← order_using_token_ordering ltokens token_ordering;
  ordered_rtokens ← order_using_token_ordering rtokens token_ordering;
  let l_prefix_length :=
    get_prefix_length (length ordered_ltokens)
                      (sim_measure_type self) (threshold self) in
  let r_prefix_length :=
    get_prefix_length (length ordered_rtokens)
                      (sim_measure_type self) (threshold self) in
  let prefix_overlap : gset token :=
    token_set (take l_prefix_length ordered_ltokens)
    ∩ token_set (take r_prefix_length ordered_rtokens) in
  if decide (0 < size prefix_overlap) then Ok false else Ok true.

(** *** The prefix index *)

(** Modelled from the spec: [PrefixIndex] of
    [py_stringsimjoin/index/prefix_index.py], which is not part of the
    sources at hand.  [build]: "for every record, skip if the text field
    is empty/null; otherwise compute the Ordered Token Sequence and its
    prefix length, and for every token in that prefix, add the record's
    key to that token's candidate set".  [probe]: "returns the empty set
    for tokens never seen during build". *)
Definition probe (index : gmap token (gset value)) (tok : token)
    : gset value :=
  default ∅ (index !! tok).

Definition index_add (key : value) (index : gmap token (gset value))
    (tok : token) : gmap token (gset value) :=
  <[tok := probe index tok ∪ {[key]}]> index.

Definition is_empty_field (v : value) : bool :=
  bool_decide (v = VNone) || bool_decide (str v = EmptyString).

Definition index_row (key_attr index_attr : nat) (self : PrefixFilter)
    (token_ordering : gmap token nat)
    (index : gmap token (gset value)) (r : row)
    : gmap token (gset value) * option exn :=
  if is_empty_field (r !!! index_attr) then (index, None) else
  match order_using_token_ordering
          (elements (token_set (tokenizer self (str (r !!! index_attr)))))
          token_ordering with
  | Err e => (index, Some e)
  | Ok ordered =>
      let prefix_length :=
        get_prefix_length (length ordered)
                          (sim_measure_type self) (threshold self) in
      (foldl (index_add (r !!! key_attr)) index (take prefix_length ordered),
       None)
  end.

Definition PrefixIndex_build (table : list row) (key_attr index_attr : nat)
    (self : PrefixFilter) (token_ordering : gmap token nat)
    : gmap token (gset value) * option exn :=
  for_each (index_row key_attr index_attr self token_ordering) ∅ table.


(** *** [filter_tables] *)

(** Column indices of the key attribute, the filter attribute and the
    output attributes of one table. *)
Record attr_indices := {
  key_attr_index : nat;
  filter_attr_index : nat;
  out_attrs_indices : list nat;
}.

(** Lines 81-87: the output attributes are looked up when
    [l_out_attrs is not None]. *)
Definition find_l_indices (l_columns : list string)
    (l_key_attr l_filter_attr : string) (l_out_attrs : option (list string))
    : result attr_indices :=
  l_key_attr_index ← list_index l_key_attr l_columns;
  l_filter_attr_index ← list_index l_filter_attr l_columns;
  l_out_attrs_indices ←
    match l_out_attrs with
    | Some attrs => mapR (λ attr, list_index attr l_columns) attrs
    | None => Ok []
    end;
  Ok {| key_attr_index := l_key_attr_index;
        filter_attr_index := l_filter_attr_index;
        out_attrs_indices := l_out_attrs_indices |}.

(** Lines 90-96: the output attributes are looked up when [r_out_attrs]
    is truthy, that is neither [None] nor the empty list. *)
Definition find_r_indices (r_columns : list string)
    (r_key_attr r_filter_attr : string) (r_out_attrs : option (list string))
    : result attr_indices :=
  r_key_attr_index ← list_index r_key_attr r_columns;
  r_filter_attr_index ← list_index r_filter_attr r_columns;
  r_out_attrs_indices ←
    match r_out_attrs with
    | Some (attr :: attrs) =>
        mapR (λ attr, list_index attr r_columns) (attr :: attrs)
    | _ => Ok []
    end;
  Ok {| key_attr_index := r_key_attr_index;
        filter_attr_index := r_filter_attr_index;
        out_attrs_indices := r_out_attrs_indices |}.

(** Modelled from the spec: [get_output_row_from_tables] of
    [py_stringsimjoin/utils/helper_functions.py], which is not part of
    the sources at hand: "a unique incrementing candidate id, the left
    key, the right key, and, if output fields were requested, the
    projected field values from both source records". *)
Definition get_output_row_from_tables (candset_id : Z) (l_row r_row : row)
    (l_id r_id : value) (l_out_attrs_indices r_out_attrs_indices : list nat)
    : row :=
  [VInt candset_id; l_id; r_id]
  ++ ((λ i, l_row !!! i) <$> l_out_attrs_indices)
  ++ ((λ i, r_row !!! i) <$> r_out_attrs_indices).

(** Modelled from the spec: [get_output_header_from_tables] of the same
    module: "[id, left_key_name, right_key_name, <left_output_fields
    prefixed>, <right_output_fields prefixed>]", the names of the two
    tables told apart by their prefixes. *)
Definition get_output_header_from_tables (id_name l_key_attr r_key_attr : string)
    (l_out_attrs r_out_attrs : option (list string))
    (l_out_prefix r_out_prefix : string) : list string :=
  [id_name; l_out_prefix +:+ l_key_attr; r_out_prefix +:+ r_key_attr]
  ++ ((λ a, l_out_prefix +:+ a) <$> default [] l_out_attrs)
  ++ ((λ a, r_out_prefix +:+ a) <$> default [] r_out_attrs).

(** The body of [for cand in candidates] (lines 150-161); the loop's
    variables are [candset_id] and [output_rows]. *)
Definition emit_row (has_output_attributes : bool)
    (ltable_dict : list (value * row)) (r_row : row) (r_id : value)
    (l_out_attrs_indices r_out_attrs_indices : list nat)
    (st : Z * list row) (cand : value) : (Z * list row) * option exn :=
  if has_output_attributes then
    match dict_get ltable_dict cand with
    | Err e => (st, Some e)
    | Ok l_row =>
        ((st.1 + 1,
          st.2 ++ [get_output_row_from_tables st.1 l_row r_row cand r_id
                     l_out_attrs_indices r_out_attrs_indices])%Z,
         None)
    end
  else ((st.1 + 1, st.2 ++ [[VInt st.1; cand; r_id]])%Z, None).

(** [candidates] of lines 145-148: the union of the probes of the
    tokens of the prefix. *)
Definition probe_candidates (prefix_index : gmap token (gset value))
    (prefix : list token) : gset value :=
  ⋃ (probe prefix_index <$> prefix).

(** The body of [for r_row in rtable_dict.values()] (lines 130-163), the
    set [candidates] being visited in the order of [elements]. *)
Definition probe_row (self : PrefixFilter) (has_output_attributes : bool)
    (ltable_dict : list (value * row))
    (token_ordering : gmap token nat)
    (prefix_index : gmap token (gset value))
    (l_out_attrs_indices : list nat) (r : attr_indices)
    (st : Z * list row) (r_row : row) : (Z * list row) * option exn :=
  let r_id := r_row !!! key_attr_index r in
  let r_string := str (r_row !!! filter_attr_index r) in
  (* check for empty string *)
  if decide (r_string = EmptyString) then (st, None) else
  let r_filter_attr_tokens := token_set (tokenizer self r_string) in
  match order_using_token_ordering (elements r_filter_attr_tokens)
                                   token_ordering with
  | Err e => (st, Some e)
  | Ok r_ordered_tokens =>
      let r_prefix_length :=
        get_prefix_length (length r_ordered_tokens)
                          (sim_measure_type self) (threshold self) in
      (* probe prefix index and find candidates *)
      let candidates :=
        probe_candidates prefix_index
          (take r_prefix_length r_ordered_tokens) in
      for_each (emit_row has_output_attributes ltable_dict r_row r_id
                         l_out_attrs_indices (out_attrs_indices r))
               st (elements candidates)
  end.

(** The local variables of a call of [filter_tables] that the design
    document speaks of; [None] is a variable not bound yet. *)
Record frame := {
  f_ltable_dict : option (list (value * row));
  f_rtable_dict : option (list (value * row));
  f_token_ordering : option (gmap token nat);
  f_prefix_index : option (gmap token (gset value));
  f_output_rows : option (list row);
}.

Definition no_locals : frame :=
  {| f_ltable_dict := None; f_rtable_dict := None;
     f_token_ordering := None; f_prefix_index := None;
     f_output_rows := None |}.

(** A call of [filter_tables]: the frame it ends with, and the table it
    returns or the exception it raises. *)
Definition filter_tables_run (self : PrefixFilter) (ltable rtable : DataFrame)
    (l_key_attr r_key_attr l_filter_attr r_filter_attr : string)
    (l_out_attrs r_out_attrs : option (list string))
    (l_out_prefix r_out_prefix : string) : frame * result DataFrame :=
  (* find column indices of key attr, filter attr and output attrs *)
  match find_l_indices (columns ltable) l_key_attr l_filter_attr l_out_attrs
  with
  | Err e => (no_locals, Err e)
  | Ok l =>
  match find_r_indices (columns rtable) r_key_attr r_filter_attr r_out_attrs
  with
  | Err e => (no_locals, Err e)
  | Ok r =>
  (* build a dictionary on ltable, and one on rtable *)
  let ltable_dict := build_dict (itertuples ltable) (key_attr_index l) in
  let rtable_dict := build_dict (itertuples rtable) (key_attr_index r) in
  (* generate token ordering using tokens in both filter attributes *)
  let token_ordering :=
    gen_token_ordering_for_tables
      [dict_values ltable_dict; dict_values rtable_dict]
      [filter_attr_index l; filter_attr_index r]
      (tokenizer self) in
  (* build prefix index on l_filter_attr *)
  let prefix_index :=
    PrefixIndex_build (dict_values ltable_dict)
      (key_attr_index l) (filter_attr_index l) self token_ordering in
  let fr output_rows :=
    {| f_ltable_dict := Some ltable_dict;
       f_rtable_dict := Some rtable_dict;
       f_token_ordering := Some token_ordering;
       f_prefix_index := Some prefix_index.1;
       f_output_rows := output_rows |} in
  match prefix_index.2 with
  | Some e => (fr None, Err e)
  | None =>
  let has_output_attributes :=
    bool_decide (is_Some l_out_attrs) || bool_decide (is_Some r_out_attrs) in
  let loop :=
    for_each (probe_row self has_output_attributes ltable_dict
                        token_ordering prefix_index.1
                        (out_attrs_indices l) r)
             (1%Z, []) (dict_values rtable_dict) in
  match loop.2 with
  | Some e => (fr (Some loop.1.2), Err e)
  | None =>
      let output_header :=
        get_output_header_from_tables "_id" l_key_attr r_key_attr
          l_out_attrs r_out_attrs l_out_prefix r_out_prefix in
      (fr (Some loop.1.2),
       Ok {| columns := output_header; itertuples := loop.1.2 |})
  end end end end.

Definition filter_tables (self : PrefixFilter) (ltable rtable : DataFrame)
    (l_key_attr r_key_attr l_filter_attr r_filter_attr : string)
    (l_out_attrs r_out_attrs : option (list string))
    (l_out_prefix r_out_prefix : string) : result DataFrame :=
  (filter_tables_run self ltable rtable l_key_attr r_key_attr
     l_filter_attr r_filter_attr l_out_attrs r_out_attrs
     l_out_prefix r_out_prefix).2.

End prefix_filter.

(** *** [filter_tables] with the order of a set left open *)


Section set_order.
Context {float : Type}.
Variable get_prefix_length : nat → string → float → nat.
Variable iter : row → gset value → list value.

(** The body of [for r_row in rtable_dict.values()] (lines 130-163). *)
Definition probe_row_in (self : @PrefixFilter float)
    (has_output_attributes : bool)
    (ltable_dict : list (value * row))
    (token_ordering : gmap token nat)
    (prefix_index : gmap token (gset value))
    (l_out_attrs_indices : list nat) (r : attr_indices)
    (st : Z * list row) (r_row : row) : (Z * list row) * option exn :=
  let r_id := r_row !!! key_attr_index r in
  let r_string := str (r_row !!! filter_attr_index r) in
  (* check for empty string *)
  if decide (r_string = EmptyString) then (st, None) else
  let r_filter_attr_tokens := token_set (tokenizer self r_string) in
  match order_using_token_ordering (elements r_filter_attr_tokens)
                                   token_ordering with
  | Err e => (st, Some e)
  | Ok r_ordered_tokens =>
      let r_prefix_length :=
        get_prefix_length (length r_ordered_tokens)
                          (sim_measure_type self) (threshold self) in
      (* probe prefix index and find candidates *)
      let candidates :=
        probe_candidates prefix_index
          (take r_prefix_length r_ordered_tokens) in
      for_each (emit_row has_output_attributes ltable_dict r_row r_id
                         l_out_attrs_indices (out_attrs_indices r))
               st (iter r_row candidates)
  end.

(** A call of [filter_tables]: the frame it ends with, and the table it
    returns or the exception it raises. *)
Definition filter_tables_run_in (self : @PrefixFilter float)
    (ltable rtable : DataFrame)
    (l_key_attr r_key_attr l_filter_attr r_filter_attr : string)
    (l_out_attrs r_out_attrs : option (list string))
    (l_out_prefix r_out_prefix : string) : frame * result DataFrame :=
  (* find column indices of key attr, filter attr and output attrs *)
  match find_l_indices (columns ltable) l_key_attr l_filter_attr l_out_attrs
  with
  | Err e => (no_locals, Err e)
  | Ok l =>
  match find_r_indices (columns rtable) r_key_attr r_filter_attr r_out_attrs
  with
  | Err e => (no_locals, Err e)
  | Ok r =>
  (* build a dictionary on ltable, and one on rtable *)
  let ltable_dict := build_dict (itertuples ltable) (key_attr_index l) in
  let rtable_dict := build_dict (itertuples rtable) (key_attr_index r) in
  (* generate token ordering using tokens in both filter attributes *)
  let token_ordering :=
    gen_token_ordering_for_tables
      [dict_values ltable_dict; dict_values rtable_dict]
      [filter_attr_index l; filter_attr_index r]
      (tokenizer self) in
  (* build prefix index on l_filter_attr *)
  let prefix_index :=
    PrefixIndex_build get_prefix_length (dict_values ltable_dict)
      (key_attr_index l) (filter_attr_index l) self token_ordering in
  let fr output_rows :=
    {| f_ltable_dict := Some ltable_dict;
       f_rtable_dict := Some rtable_dict;
       f_token_ordering := Some token_ordering;
       f_prefix_index := Some prefix_index.1;
       f_output_rows := output_rows |} in
  match prefix_index.2 with
  | Some e => (fr None, Err e)
  | None =>
  let has_output_attributes :=
    bool_decide (is_Some l_out_attrs) || bool_decide (is_Some r_out_attrs) in
  let loop :=
    for_each (probe_row_in self has_output_attributes ltable_dict
                           token_ordering prefix_index.1
                           (out_attrs_indices l) r)
             (1%Z, []) (dict_values rtable_dict) in
  match loop.2 with
  | Some e => (fr (Some loop.1.2), Err e)
  | None =>
      let output_header :=
        get_output_header_from_tables "_id" l_key_attr r_key_attr
          l_out_attrs r_out_attrs l_out_prefix r_out_prefix in
      (fr (Some loop.1.2),
       Ok {| columns := output_header; itertuples := loop.1.2 |})
  end end end end.


End set_order.

(** [filter_tables] is [filter_tables_in] at the order of [elements]. *)
Lemma filter_tables_run_in_elements {float : Type}
    (get_prefix_length : nat → string → float → nat)
    (self : @PrefixFilter float) (ltable rtable : DataFrame)
    (l_key_attr r_key_attr l_filter_attr r_filter_attr : string)
    (l_out_attrs r_out_attrs : option (list string))
    (l_out_prefix r_out_prefix : string) :
  filter_tables_run_in get_prefix_length (λ _, elements) self ltable rtable
    l_key_attr r_key_attr l_filter_attr r_filter_attr
    l_out_attrs r_out_attrs l_out_prefix r_out_prefix
  = filter_tables_run get_prefix_length self ltable rtable
      l_key_attr r_key_attr l_filter_attr r_filter_attr
      l_out_attrs r_out_attrs l_out_prefix r_out_prefix.
Proof. reflexivity. Qed.

(** * Properties *)

(** ** The result monad and the loops *)

Lemma mapR_ok {A B} (f : A → result B) (g : A → B) (l : list A) :
  (∀ x, x ∈ l → f x = Ok (g x)) → mapR f l = Ok (g <$> l).
Proof.
  induction l as [|x l IH]; intros Hf; [done|].
  cbn. rewrite Hf by left. cbn.
  rewrite IH; [done|]. intros y Hy. apply Hf. by right.
Qed.

Lemma mapR_err_elem {A B} (f : A → result B) (l : list A) e :
  mapR f l = Err e → ∃ x, x ∈ l ∧ f x = Err e.
Proof.
  induction l as [|x l IH]; [done|]. cbn.
  destruct (f x) as [y|e'] eqn:Hx; cbn.
  - destruct (mapR f l) as [ys|e'] eqn:Hl; cbn; [done|].
    intros [= ->]. destruct IH as (z & Hz & Hfz); [done|].
    exists z. split; [by right|done].
  - intros [= ->]. exists x. split; [by left|done].
Qed.

Lemma for_each_app {S A} (body : S → A → S * option exn) s l1 l2 :
  (for_each body s l1).2 = None →
  for_each body s (l1 ++ l2) = for_each body (for_each body s l1).1 l2.
Proof.
  revert s. induction l1 as [|x l1 IH]; intros s; [done|]. cbn.
  destruct (body s x) as [s' [e|]]; [done|]. apply IH.
Qed.

Lemma for_each_ext {S A} (body1 body2 : S → A → S * option exn) s l :
  (∀ s x, x ∈ l → body1 s x = body2 s x) →
  for_each body1 s l = for_each body2 s l.
Proof.
  revert s. induction l as [|x l IH]; intros s Hb; [done|]. cbn.
  rewrite Hb by left. destruct (body2 s x) as [s' [e|]]; [done|].
  apply IH. intros s'' y Hy. apply Hb. by right.
Qed.

(** ** The token ordering *)

Global Instance rank_le_total : Total rank_le.
Proof. intros a b. unfold rank_le. lia. Qed.

Global Instance rank_le_trans : Transitive rank_le.
Proof. intros a b c. unfold rank_le. lia. Qed.

(** The ordering gives a rank to exactly the tokens of its token sets. *)
Lemma build_token_ordering_dom (token_sets : list (gset token)) (t : token) :
  is_Some (build_token_ordering token_sets !! t) ↔ t ∈ ⋃ token_sets.
Proof.
  unfold build_token_ordering.
  rewrite <-elem_of_dom, dom_list_to_map_L, elem_of_list_to_set.
  rewrite fst_zip by (rewrite length_fmap, length_seq; lia).
  rewrite merge_sort_Permutation, <-list_fmap_compose.
  rewrite (list_fmap_ext _ id) by done.
  by rewrite list_fmap_id, elem_of_elements.
Qed.

(** Ordering a list of ranked tokens succeeds, and rearranges it. *)
Lemma order_using_token_ordering_ok (tokens : list token)
    (ordering : gmap token nat) :
  (∀ t, t ∈ tokens → is_Some (ordering !! t)) →
  ∃ ordered, order_using_token_ordering tokens ordering = Ok ordered
             ∧ ordered ≡ₚ tokens.
Proof.
  intros Hcov. unfold order_using_token_ordering.
  rewrite (mapR_ok _ (λ t, (default 0 (ordering !! t), t))).
  - cbn. eexists. split; [done|].
    rewrite merge_sort_Permutation, <-list_fmap_compose.
    by rewrite (list_fmap_ext _ id), list_fmap_id.
  - intros t Ht. unfold rank_of. by destruct (Hcov t Ht) as [r ->].
Qed.

Definition share_token (p q : list token) : Prop := ∃ t, t ∈ p ∧ t ∈ q.

Section filter_pair_properties.
Context {float : Type} (get_prefix_length : nat → string → float → nat).
Implicit Types (self : @PrefixFilter float) (lstring rstring : option string).

(** The tokens of both strings have a rank in the ordering built from
    the two token lists. *)
Lemma pair_ordering_covers (ltokens rtokens : list token) t :
  t ∈ ltokens ∨ t ∈ rtokens →
  is_Some (gen_token_ordering_for_lists [ltokens; rtokens] !! t).
Proof.
  intros Hin. apply build_token_ordering_dom. cbn.
  unfold token_set. set_solver.
Qed.

Lemma overlap_size_pos (p q : list token) :
  0 < size (token_set p ∩ token_set q) ↔ share_token p q.
Proof.
  unfold share_token, token_set. split.
  - intros (t & Hin)%size_pos_elem_of. exists t. set_solver.
  - intros (t & Hp & Hq).
    assert (t ∈ (list_to_set p ∩ list_to_set q : gset token)) as Hin
      by set_solver.
    destruct (size _) eqn:Hs; [|lia].
    apply size_empty_iff in Hs. set_solver.
Qed.

(** What [filter_pair] computes on two non-empty strings. *)
Lemma filter_pair_nonempty self lstring rstring :
  py_not lstring || py_not rstring = false →
  let ltokens := elements (token_set (tokenizer self (the_string lstring))) in
  let rtokens := elements (token_set (tokenizer self (the_string rstring))) in
  let token_ordering := gen_token_ordering_for_lists [ltokens; rtokens] in
  ∃ ordered_ltokens ordered_rtokens,
    order_using_token_ordering ltokens token_ordering = Ok ordered_ltokens
    ∧ order_using_token_ordering rtokens token_ordering = Ok ordered_rtokens
    ∧ ordered_ltokens ≡ₚ ltokens
    ∧ ordered_rtokens ≡ₚ rtokens
    ∧ ∃ b : bool,
        filter_pair get_prefix_length self lstring rstring = Ok b
        ∧ (b = false ↔
           share_token
             (take (get_prefix_length (length ltokens)
                      (sim_measure_type self) (threshold self))
                   ordered_ltokens)
             (take (get_prefix_length (length rtokens)
                      (sim_measure_type self) (threshold self))
                   ordered_rtokens)).
Proof.
  intros Hne ltokens rtokens token_ordering.
  destruct (order_using_token_ordering_ok ltokens token_ordering)
    as (ol & Hol & Hpl).
  { intros t Ht. apply pair_ordering_covers. by left. }
  destruct (order_using_token_ordering_ok rtokens token_ordering)
    as (or & Hor & Hpr).
  { intros t Ht. apply pair_ordering_covers. by right. }
  exists ol, or. repeat split; try done.
  unfold filter_pair. rewrite Hne.
  fold ltokens rtokens token_ordering. rewrite Hol, Hor. cbn.
  rewrite (Permutation_length Hpl), (Permutation_length Hpr).
  case_decide as Hsz; eexists; (split; [done|]);
    rewrite overlap_size_pos in Hsz; naive_solver.
Qed.

(** C1. [filter_pair] returns [True] (drop) when either string is empty
    or [None].  Otherwise both token lists are ordered, each ordered
    sequence being a rearrangement of its side's token set, and
    [filter_pair] returns [True] if and only if the first
    [l_prefix_length] tokens of the left sequence and the first
    [r_prefix_length] tokens of the right one share no token, the prefix
    lengths being computed from each side's number of tokens, the
    measure and the threshold; it returns [False] (keep) otherwise. *)
Theorem filter_pair_drops_iff_prefixes_disjoint self lstring rstring :
  let ltokens := elements (token_set (tokenizer self (the_string lstring))) in
  let rtokens := elements (token_set (tokenizer self (the_string rstring))) in
  let token_ordering := gen_token_ordering_for_lists [ltokens; rtokens] in
  let l_prefix_length :=
    get_prefix_length (size (token_set (tokenizer self (the_string lstring))))
                      (sim_measure_type self) (threshold self) in
  let r_prefix_length :=
    get_prefix_length (size (token_set (tokenizer self (the_string rstring))))
                      (sim_measure_type self) (threshold self) in
  if py_not lstring || py_not rstring
  then filter_pair get_prefix_length self lstring rstring = Ok true
  else
    ∃ ordered_ltokens ordered_rtokens,
      order_using_token_ordering ltokens token_ordering = Ok ordered_ltokens
      ∧ order_using_token_ordering rtokens token_ordering = Ok ordered_rtokens
      ∧ ordered_ltokens ≡ₚ ltokens
      ∧ ordered_rtokens ≡ₚ rtokens
      ∧ ∃ b : bool,
          filter_pair get_prefix_length self lstring rstring = Ok b
          ∧ (b = true ↔
             ¬ share_token (take l_prefix_length ordered_ltokens)
                           (take r_prefix_length ordered_rtokens))
          ∧ (b = false ↔
             share_token (take l_prefix_length ordered_ltokens)
                         (take r_prefix_length ordered_rtokens)).
Proof.
  intros ltokens rtokens token_ordering l_prefix_length r_prefix_length.
  destruct (py_not lstring || py_not rstring) eqn:Hne.
  - unfold filter_pair. by rewrite Hne.
  - destruct (filter_pair_nonempty self lstring rstring Hne)
      as (ol & or & Hol & Hor & Hpl & Hpr & b & Hb & Hiff).
    exists ol, or. repeat (split; [done|]).
    exists b. split; [done|].
    fold ltokens rtokens in Hiff.
    change (length ltokens) with
      (size (token_set (tokenizer self (the_string lstring)))) in Hiff.
    change (length rtokens) with
      (size (token_set (tokenizer self (the_string rstring)))) in Hiff.
    fold l_prefix_length r_prefix_length in Hiff.
    split; [|done]. rewrite <-Hiff. by destruct b.
Qed.

(** C10. When the prefix length calculator returns a value in [1, n]
    for every n of at least 1, [filter_pair(s, s)] returns [False] (the
    pair is kept) for every non-empty string [s] whose token set is not
    empty. *)
Theorem filter_pair_same_string_kept self (s : string) :
  (∀ n, 1 ≤ n →
     1 ≤ get_prefix_length n (sim_measure_type self) (threshold self) ≤ n) →
  s ≠ EmptyString →
  token_set (tokenizer self s) ≠ ∅ →
  filter_pair get_prefix_length self (Some s) (Some s) = Ok false.
Proof.
  intros Hpl Hs Htok.
  assert (py_not (Some s) || py_not (Some s) = false) as Hne.
  { cbn. by rewrite bool_decide_eq_false_2. }
  destruct (filter_pair_nonempty self (Some s) (Some s) Hne)
    as (ol & or & Hol & Hor & Hperm & _ & b & Hb & Hiff).
  cbv [the_string default id] in *. rewrite Hol in Hor. injection Hor as <-.
  rewrite Hb. f_equal. apply Hiff.
  set (k := get_prefix_length _ _ _) in *.
  assert (1 ≤ length (elements (token_set (tokenizer self s)))) as Hlen.
  { destruct (elements _) eqn:He; [|cbn; lia].
    by apply elements_empty_inv, leibniz_equiv in He. }
  specialize (Hpl _ Hlen). fold k in Hpl.
  destruct ol as [|t ol].
  { apply Permutation_length in Hperm. cbn in Hperm. lia. }
  unfold share_token. exists t. destruct k as [|k]; [lia|]. cbn. split; apply list_elem_of_here.
Qed.

End filter_pair_properties.

(** ** Dictionaries *)

Section dict.
Context {V : Type}.
Implicit Types (d : list (value * V)) (k : value) (v : V).

Lemma dict_lookup_set d k v k' :
  dict_lookup (dict_set d k v) k'
  = if decide (k = k') then Some v else dict_lookup d k'.
Proof.
  induction d as [|[k0 v0] d IH]; cbn.
  - by destruct (decide (k = k')).
  - destruct (decide (k0 = k)) as [->|Hne]; cbn.
    + by destruct (decide (k = k')).
    + rewrite IH. destruct (decide (k0 = k')) as [->|]; [|done].
      by rewrite decide_False.
Qed.

Lemma dict_set_keys_known d k v : k ∈ d.*1 → (dict_set d k v).*1 = d.*1.
Proof.
  induction d as [|[k0 v0] d IH]; cbn; [by intros ?%elem_of_nil|].
  intros Hk. destruct (decide (k0 = k)) as [->|Hne]; cbn; [done|].
  f_equal. apply IH. apply elem_of_cons in Hk as [->|]; done.
Qed.

Lemma dict_set_new d k v : k ∉ d.*1 → dict_set d k v = d ++ [(k, v)].
Proof.
  induction d as [|[k0 v0] d IH]; cbn; [done|].
  intros Hk. apply not_elem_of_cons in Hk as [Hne Hk].
  rewrite decide_False by done. f_equal. by apply IH.
Qed.

Lemma dict_set_keys_NoDup d k v : NoDup d.*1 → NoDup (dict_set d k v).*1.
Proof.
  intros Hd. destruct (decide (k ∈ d.*1)) as [Hk|Hk].
  - by rewrite dict_set_keys_known.
  - rewrite dict_set_new, fmap_app by done. cbn.
    apply NoDup_app. split; [done|]. split; [|apply NoDup_singleton].
    intros k' Hk' ->%list_elem_of_singleton. done.
Qed.

Lemma dict_set_elem d k v k' v' :
  (k', v') ∈ dict_set d k v → (k' = k ∧ v' = v) ∨ (k', v') ∈ d.
Proof.
  induction d as [|[k0 v0] d IH]; cbn.
  - intros [=]%list_elem_of_singleton. by left.
  - destruct (decide (k0 = k)) as [->|Hne];
      intros [[=]|Hin]%elem_of_cons; subst.
    + by left.
    + right. by right.
    + right. by left.
    + destruct (IH Hin); [by left|]. right. by right.
Qed.

Lemma dict_lookup_Some d k v :
  dict_lookup d k = Some v → (k, v) ∈ d.
Proof.
  induction d as [|[k0 v0] d IH]; cbn; [done|].
  destruct (decide (k0 = k)) as [->|Hne].
  - intros [= ->]. by left.
  - intros Hl. right. by apply IH.
Qed.

Lemma dict_lookup_elem d k v :
  NoDup d.*1 → (k, v) ∈ d → dict_lookup d k = Some v.
Proof.
  induction d as [|[k0 v0] d IH]; cbn; [by intros _ ?%elem_of_nil|].
  intros [Hk0 Hd]%NoDup_cons [[= -> ->]|Hin]%elem_of_cons.
  - by rewrite decide_True.
  - rewrite decide_False; [by apply IH|].
    intros ->. apply Hk0. apply list_elem_of_fmap. by exists (k, v).
Qed.
End dict.

(** The dictionary built on a table, from any dictionary [d] on. *)
Definition dict_of (rows : list row) (i : nat) (d : list (value * row))
    : list (value * row) :=
  foldl (λ d r, dict_set d (r !!! i) r) d rows.

Lemma dict_of_cons r rows i d :
  dict_of (r :: rows) i d = dict_of rows i (dict_set d (r !!! i) r).
Proof. done. Qed.

Lemma dict_of_keys_NoDup rows i d : NoDup d.*1 → NoDup (dict_of rows i d).*1.
Proof.
  revert d. induction rows as [|r rows IH]; intros d Hd; [done|].
  cbn. apply IH. by apply dict_set_keys_NoDup.
Qed.

Lemma dict_of_elem rows i d k r :
  (k, r) ∈ dict_of rows i d → (r ∈ rows ∧ r !!! i = k) ∨ (k, r) ∈ d.
Proof.
  revert d. induction rows as [|r0 rows IH]; intros d; cbn; [by right|].
  intros [[Hin Hk]|Hin]%IH.
  - left. split; [by right|done].
  - apply dict_set_elem in Hin as [[-> ->]|Hin]; [|by right].
    left. split; [by left|done].
Qed.

(** The value kept for a key is the last row of the table bearing it. *)
Lemma dict_of_lookup rows i d k :
  dict_lookup (dict_of rows i d) k
  = match last (filter (λ r, r !!! i = k) rows) with
    | Some r => Some r
    | None => dict_lookup d k
    end.
Proof.
  revert d. induction rows as [|r rows IH]; intros d; [done|].
  rewrite dict_of_cons, IH, dict_lookup_set, filter_cons.
  destruct (decide (r !!! i = k)) as [Hk|Hk].
  - destruct (filter _ rows) as [|r' rs]; [done|].
    change (last (r :: r' :: rs)) with (last (r' :: rs)).
    destruct (last (r' :: rs)) eqn:Hl; [done|].
    by apply last_None in Hl.
  - done.
Qed.

Lemma build_dict_keys_NoDup rows i : NoDup (build_dict rows i).*1.
Proof. apply (dict_of_keys_NoDup rows i []). constructor. Qed.

Lemma build_dict_elem rows i k r :
  (k, r) ∈ build_dict rows i → r ∈ rows ∧ r !!! i = k.
Proof.
  intros [?|Hin]%(dict_of_elem rows i []); [done|].
  by apply elem_of_nil in Hin.
Qed.

Lemma build_dict_lookup rows i k :
  dict_lookup (build_dict rows i) k = last (filter (λ r, r !!! i = k) rows).
Proof.
  change (build_dict rows i) with (dict_of rows i []).
  rewrite (dict_of_lookup rows i [] k).
  by destruct (last _).
Qed.

(** Every key of the table is a key of its dictionary. *)
Lemma build_dict_lookup_is_Some rows i r :
  r ∈ rows → is_Some (dict_lookup (build_dict rows i) (r !!! i)).
Proof.
  intros Hr. rewrite build_dict_lookup.
  assert (r ∈ filter (λ r', r' !!! i = r !!! i) rows) as Hin
    by (by apply list_elem_of_filter).
  destruct (filter _ rows) as [|x l] using rev_ind;
    [by apply elem_of_nil in Hin|].
  rewrite last_snoc. by eexists.
Qed.

(** The rows of a dictionary's values carry distinct keys. *)
Lemma build_dict_values_keys rows i :
  (λ r : row, r !!! i) <$> dict_values (build_dict rows i)
  = (build_dict rows i).*1.
Proof.
  unfold dict_values. rewrite <-list_fmap_compose.
  apply list_fmap_ext. intros j [k r] Hj. cbn.
  by apply list_elem_of_lookup_2, build_dict_elem in Hj as [_ ?].
Qed.

(** On a table whose keys are distinct the dictionary holds the rows of
    the table, in the table's order. *)
Lemma dict_of_distinct rows i d :
  NoDup (d.*1 ++ ((λ r : row, r !!! i) <$> rows)) →
  dict_of rows i d = d ++ ((λ r : row, (r !!! i, r)) <$> rows).
Proof.
  revert d. induction rows as [|r rows IH]; intros d Hnd.
  - cbn. by rewrite app_nil_r.
  - rewrite dict_of_cons. cbn in Hnd. cbn [fmap list_fmap]. rewrite dict_set_new.
    + rewrite IH; [by rewrite <-app_assoc|].
      rewrite fmap_app. cbn. by rewrite <-app_assoc.
    + apply NoDup_app in Hnd as (_ & Hnd & _). intros Hin.
      apply (Hnd _ Hin). by left.
Qed.

Lemma build_dict_distinct rows i :
  NoDup ((λ r : row, r !!! i) <$> rows) →
  dict_values (build_dict rows i) = rows.
Proof.
  intros Hnd. unfold dict_values.
  change (build_dict rows i) with (dict_of rows i []).
  rewrite (dict_of_distinct rows i []) by done. cbn.
  rewrite <-list_fmap_compose. by rewrite (list_fmap_ext _ id), list_fmap_id.
Qed.

(** ** What the index holds and what the probe loop emits *)

Section views.
Context {float : Type} (get_prefix_length : nat → string → float → nat).
Implicit Types (self : @PrefixFilter float) (ordering : gmap token nat).

(** The ordered token sequence of a text, and its prefix. *)
Definition ordered_tokens self ordering (s : string) : list token :=
  match order_using_token_ordering
          (elements (token_set (tokenizer self s))) ordering with
  | Ok ordered => ordered
  | Err _ => []
  end.

Definition prefix_tokens self ordering (s : string) : list token :=
  take (get_prefix_length (length (ordered_tokens self ordering s))
                          (sim_measure_type self) (threshold self))
       (ordered_tokens self ordering s).

(** The rows of the indexed table that bear [tok] in their prefix. *)
Definition indexed_rows self ordering (index_attr : nat) (tok : token)
    (table : list row) : list row :=
  filter (λ r, is_empty_field (r !!! index_attr) = false
               ∧ tok ∈ prefix_tokens self ordering (str (r !!! index_attr)))
         table.

Definition indexed_keys self ordering (key_attr index_attr : nat)
    (table : list row) (tok : token) : gset value :=
  list_to_set ((λ r : row, r !!! key_attr)
               <$> indexed_rows self ordering index_attr tok table).

(** Every token of the texts of [table] has a rank. *)
Definition covers self ordering (attr : nat) (table : list row) : Prop :=
  ∀ r t, r ∈ table → t ∈ tokenizer self (str (r !!! attr)) →
         is_Some (ordering !! t).

(** The candidates of a right row, in the order of their emission. *)
Definition row_candidates self ordering
    (prefix_index : gmap token (gset value)) (r : attr_indices)
    (r_row : row) : list value :=
  if decide (str (r_row !!! filter_attr_index r) = EmptyString) then []
  else elements (probe_candidates prefix_index
                   (prefix_tokens self ordering
                      (str (r_row !!! filter_attr_index r)))).

(** The candidate pairs of a list of right rows: each candidate with the
    right row it was found for. *)
Definition candidate_pairs self ordering
    (prefix_index : gmap token (gset value)) (r : attr_indices)
    (right_rows : list row) : list (value * row) :=
  r_row ← right_rows;
  (λ cand, (cand, r_row)) <$> row_candidates self ordering prefix_index r r_row.

(** The output row of a candidate pair that gets the identifier [cid]. *)
Definition output_row (has_output_attributes : bool)
    (ltable_dict : list (value * row)) (l_out_attrs_indices : list nat)
    (r : attr_indices) (cid : Z) (p : value * row) : row :=
  if has_output_attributes then
    get_output_row_from_tables cid
      (default [] (dict_lookup ltable_dict p.1)) p.2
      p.1 (p.2 !!! key_attr_index r)
      l_out_attrs_indices (out_attrs_indices r)
  else [VInt cid; p.1; p.2 !!! key_attr_index r].

Definition numbered_rows (has_output_attributes : bool)
    (ltable_dict : list (value * row)) (l_out_attrs_indices : list nat)
    (r : attr_indices) (first : Z) (pairs : list (value * row)) : list row :=
  imap (λ j, output_row has_output_attributes ltable_dict
               l_out_attrs_indices r (first + Z.of_nat j)) pairs.

Lemma ordered_tokens_ok self ordering s :
  (∀ t, t ∈ tokenizer self s → is_Some (ordering !! t)) →
  order_using_token_ordering
    (elements (token_set (tokenizer self s))) ordering
  = Ok (ordered_tokens self ordering s)
  ∧ ordered_tokens self ordering s ≡ₚ elements (token_set (tokenizer self s)).
Proof.
  intros Hcov. unfold ordered_tokens.
  destruct (order_using_token_ordering_ok
              (elements (token_set (tokenizer self s))) ordering)
    as (o & -> & Hp); [|done].
  intros t Hin. apply Hcov. unfold token_set in Hin. set_solver.
Qed.

(** *** The index *)

Lemma probe_index_add key (index : gmap token (gset value)) tok tok' :
  probe (index_add key index tok) tok'
  = if decide (tok = tok') then probe index tok' ∪ {[key]}
    else probe index tok'.
Proof.
  unfold index_add, probe at 1. rewrite lookup_insert.
  by destruct (decide (tok = tok')) as [->|].
Qed.

Lemma probe_index_add_list key (index : gmap token (gset value)) toks tok :
  probe (foldl (index_add key) index toks) tok
  = if decide (tok ∈ toks) then probe index tok ∪ {[key]}
    else probe index tok.
Proof.
  revert index. induction toks as [|t toks IH]; intros index; cbn.
  - rewrite decide_False; [done|]. apply not_elem_of_nil.
  - rewrite IH, probe_index_add.
    repeat case_decide; subst; try done; set_solver.
Qed.

Lemma indexed_keys_singleton self ordering key_attr index_attr (r : row) tok :
  indexed_keys self ordering key_attr index_attr [r] tok
  = if decide (is_empty_field (r !!! index_attr) = false
               ∧ tok ∈ prefix_tokens self ordering (str (r !!! index_attr)))
    then {[r !!! key_attr]} else ∅.
Proof.
  unfold indexed_keys, indexed_rows. rewrite filter_cons, filter_nil.
  case_decide; cbn; set_solver.
Qed.

Lemma index_row_spec self ordering key_attr index_attr index (r : row) :
  covers self ordering index_attr [r] →
  ∃ index',
    index_row get_prefix_length key_attr index_attr self ordering index r
    = (index', None)
    ∧ ∀ tok, probe index' tok
             = probe index tok
               ∪ indexed_keys self ordering key_attr index_attr [r] tok.
Proof.
  intros Hcov. unfold index_row.
  destruct (is_empty_field (r !!! index_attr)) eqn:He.
  - exists index. split; [done|]. intros tok.
    rewrite indexed_keys_singleton, He.
    rewrite decide_False by (by intros [? _]). set_solver.
  - destruct (ordered_tokens_ok self ordering (str (r !!! index_attr)))
      as [-> _].
    { intros t Hin. apply (Hcov r t); [apply list_elem_of_here|done]. }
    eexists. split; [done|]. intros tok.
    rewrite probe_index_add_list, indexed_keys_singleton, He.
    fold (prefix_tokens self ordering (str (r !!! index_attr))).
    destruct (decide (tok ∈ prefix_tokens _ _ _)) as [Hin|Hin].
    + by rewrite decide_True by done.
    + rewrite decide_False by (by intros [_ ?]). set_solver.
Qed.

Lemma indexed_keys_cons self ordering key_attr index_attr r table tok :
  indexed_keys self ordering key_attr index_attr (r :: table) tok
  = indexed_keys self ordering key_attr index_attr [r] tok
    ∪ indexed_keys self ordering key_attr index_attr table tok.
Proof.
  unfold indexed_keys, indexed_rows.
  rewrite (filter_cons _ r table), (filter_cons _ r []), filter_nil.
  case_decide; cbn; set_solver.
Qed.

Lemma covers_cons self ordering attr r table :
  covers self ordering attr (r :: table) →
  covers self ordering attr [r] ∧ covers self ordering attr table.
Proof.
  intros Hcov. split; intros r' t Hr' Ht; apply (Hcov r' t); try done.
  - apply list_elem_of_singleton in Hr' as ->. apply list_elem_of_here.
  - by apply list_elem_of_further.
Qed.

Lemma PrefixIndex_build_from self ordering key_attr index_attr index table :
  covers self ordering index_attr table →
  ∃ index',
    for_each (index_row get_prefix_length key_attr index_attr self ordering)
             index table = (index', None)
    ∧ ∀ tok, probe index' tok
             = probe index tok
               ∪ indexed_keys self ordering key_attr index_attr table tok.
Proof.
  revert index. induction table as [|r table IH]; intros index Hcov.
  - exists index. split; [done|]. intros tok.
    unfold indexed_keys, indexed_rows. rewrite filter_nil. cbn. set_solver.
  - apply covers_cons in Hcov as [Hr Htable]. cbn [for_each].
    destruct (index_row_spec self ordering key_attr index_attr index r Hr)
      as (index1 & -> & H1).
    destruct (IH index1 Htable) as (index2 & -> & H2).
    exists index2. split; [done|]. intros tok.
    rewrite H2, H1, (indexed_keys_cons self ordering key_attr index_attr r table).
    by rewrite (assoc_L (∪)).
Qed.

(** The index built on a table whose tokens all have a rank: building
    raises nothing, and a probe returns the keys of the rows whose text
    is not empty and whose prefix holds the token. *)
Lemma PrefixIndex_build_spec self ordering key_attr index_attr table :
  covers self ordering index_attr table →
  (PrefixIndex_build get_prefix_length table key_attr index_attr
                     self ordering).2 = None
  ∧ ∀ tok,
      probe (PrefixIndex_build get_prefix_length table key_attr index_attr
                               self ordering).1 tok
      = indexed_keys self ordering key_attr index_attr table tok.
Proof.
  intros Hcov. unfold PrefixIndex_build.
  destruct (PrefixIndex_build_from self ordering key_attr index_attr ∅
              table Hcov) as (index' & -> & Hp).
  split; [done|]. intros tok. rewrite Hp. unfold probe at 1.
  rewrite lookup_empty. cbn. set_solver.
Qed.

End views.

Section probe_loop.
Context {float : Type} (get_prefix_length : nat → string → float → nat).
Implicit Types (self : @PrefixFilter float) (ordering : gmap token nat).

Lemma numbered_rows_app has_out ld li r first (p1 p2 : list (value * row)) :
  numbered_rows has_out ld li r first (p1 ++ p2)
  = numbered_rows has_out ld li r first p1
    ++ numbered_rows has_out ld li r (first + Z.of_nat (length p1)) p2.
Proof.
  unfold numbered_rows. rewrite imap_app. f_equal.
  apply imap_ext. intros j p _. cbn. f_equal. lia.
Qed.

Lemma length_numbered_rows has_out ld li r first (pairs : list (value * row)) :
  length (numbered_rows has_out ld li r first pairs) = length pairs.
Proof. apply length_imap. Qed.

(** The inner loop: one row per candidate, numbered from the current
    identifier on. *)
Lemma emit_loop has_out (ld : list (value * row)) (r_row : row) li r
    (st : Z * list row) (cands : list value) :
  (has_out = true → ∀ c, c ∈ cands → is_Some (dict_lookup ld c)) →
  for_each (emit_row has_out ld r_row (r_row !!! key_attr_index r)
                     li (out_attrs_indices r)) st cands
  = ((st.1 + Z.of_nat (length cands),
      st.2 ++ numbered_rows has_out ld li r st.1
                ((λ c, (c, r_row)) <$> cands))%Z, None).
Proof.
  revert st. induction cands as [|c cands IH]; intros [cid rows] Hld.
  - cbn. by rewrite Z.add_0_r, app_nil_r.
  - cbn [for_each]. unfold emit_row at 2.
    assert (emit_row has_out ld r_row (r_row !!! key_attr_index r) li
              (out_attrs_indices r) (cid, rows) c
            = ((cid + 1,
                rows ++ [output_row has_out ld li r cid (c, r_row)])%Z, None))
      as ->.
    { unfold emit_row, output_row, dict_get. cbn [fst snd].
      destruct has_out; [|done].
      destruct (Hld eq_refl c) as [l_row Hl]; [apply list_elem_of_here|].
      by rewrite Hl. }
    rewrite IH.
    2:{ intros Ho c' Hc'. apply Hld; [done|]. by apply list_elem_of_further. }
    cbn [fst snd]. f_equal. f_equal; [cbn [length]; lia|].
    rewrite <-app_assoc. f_equal.
    change ((λ c0, (c0, r_row)) <$> c :: cands)
      with ([(c, r_row)] ++ ((λ c0, (c0, r_row)) <$> cands)).
    rewrite numbered_rows_app. cbn [length]. f_equal.
    unfold numbered_rows. cbn. by rewrite Z.add_0_r.
Qed.

(** One turn of the outer loop. *)
Lemma probe_row_spec self has_out (ld : list (value * row)) ordering
    (prefix_index : gmap token (gset value)) li r (st : Z * list row)
    (r_row : row) :
  covers self ordering (filter_attr_index r) [r_row] →
  (has_out = true →
   ∀ c, c ∈ row_candidates get_prefix_length self ordering prefix_index r r_row →
        is_Some (dict_lookup ld c)) →
  probe_row get_prefix_length self has_out ld ordering prefix_index li r
            st r_row
  = ((st.1 + Z.of_nat (length (row_candidates get_prefix_length self ordering
                                 prefix_index r r_row)),
      st.2 ++ numbered_rows has_out ld li r st.1
                ((λ c, (c, r_row))
                 <$> row_candidates get_prefix_length self ordering
                       prefix_index r r_row))%Z, None).
Proof.
  intros Hcov Hld. unfold probe_row, row_candidates in *.
  destruct (decide (str (r_row !!! filter_attr_index r) = EmptyString))
    as [He|He].
  - cbn. rewrite Z.add_0_r, app_nil_r. by destruct st.
  - destruct (ordered_tokens_ok self ordering
                (str (r_row !!! filter_attr_index r))) as [-> _].
    { intros t Hin. apply (Hcov r_row t); [apply list_elem_of_here|done]. }
    by apply emit_loop.
Qed.

(** The outer loop: the candidate pairs of the right rows, numbered from
    the current identifier on. *)
Lemma probe_loop_spec self has_out (ld : list (value * row)) ordering
    (prefix_index : gmap token (gset value)) li r (st : Z * list row)
    (right_rows : list row) :
  covers self ordering (filter_attr_index r) right_rows →
  (has_out = true →
   ∀ p, p ∈ candidate_pairs get_prefix_length self ordering prefix_index r
              right_rows →
        is_Some (dict_lookup ld p.1)) →
  for_each (probe_row get_prefix_length self has_out ld ordering
                      prefix_index li r) st right_rows
  = ((st.1 + Z.of_nat (length (candidate_pairs get_prefix_length self
                                 ordering prefix_index r right_rows)),
      st.2 ++ numbered_rows has_out ld li r st.1
                (candidate_pairs get_prefix_length self ordering
                   prefix_index r right_rows))%Z, None).
Proof.
  revert st. induction right_rows as [|r_row right_rows IH];
    intros [cid rows] Hcov Hld.
  - cbn. by rewrite Z.add_0_r, app_nil_r.
  - apply covers_cons in Hcov as [Hrow Hrest].
    cbn [for_each]. rewrite probe_row_spec; [|done|].
    2:{ intros Ho c Hc. apply (Hld Ho (c, r_row)).
        unfold candidate_pairs. cbn. apply elem_of_app. left.
        apply list_elem_of_fmap. by exists c. }
    rewrite IH; [|done|].
    2:{ intros Ho p Hp. apply (Hld Ho p).
        unfold candidate_pairs in *. cbn. apply elem_of_app. by right. }
    cbn [fst snd]. unfold candidate_pairs at 3 4. cbn [mbind list_bind].
    fold (candidate_pairs get_prefix_length self ordering prefix_index r
            right_rows).
    rewrite numbered_rows_app, length_app, !length_fmap.
    rewrite <-app_assoc. do 2 f_equal. lia.
Qed.

End probe_loop.

(** ** The call of [filter_tables] as a whole *)

Section call.
Context {float : Type} (get_prefix_length : nat → string → float → nat).
Implicit Types (self : @PrefixFilter float) (ordering : gmap token nat).
Implicit Types (ltable rtable : DataFrame) (l r : attr_indices).

(** The dictionaries, the ordering, the index and the candidate pairs of
    a call whose column lookups gave [l] and [r]. *)
Definition left_dict ltable l : list (value * row) :=
  build_dict (itertuples ltable) (key_attr_index l).

Definition right_dict rtable r : list (value * row) :=
  build_dict (itertuples rtable) (key_attr_index r).

Definition tables_ordering self ltable rtable l r : gmap token nat :=
  gen_token_ordering_for_tables
    [dict_values (left_dict ltable l); dict_values (right_dict rtable r)]
    [filter_attr_index l; filter_attr_index r]
    (tokenizer self).

Definition tables_index self ltable rtable l r : gmap token (gset value) :=
  (PrefixIndex_build get_prefix_length (dict_values (left_dict ltable l))
     (key_attr_index l) (filter_attr_index l) self
     (tables_ordering self ltable rtable l r)).1.

Definition tables_pairs self ltable rtable l r : list (value * row) :=
  candidate_pairs get_prefix_length self
    (tables_ordering self ltable rtable l r)
    (tables_index self ltable rtable l r) r
    (dict_values (right_dict rtable r)).

Definition has_output_attributes (l_out_attrs r_out_attrs : option (list string))
    : bool :=
  bool_decide (is_Some l_out_attrs) || bool_decide (is_Some r_out_attrs).

(** The rows of the candidate table of such a call. *)
Definition tables_rows self ltable rtable l r
    (l_out_attrs r_out_attrs : option (list string)) : list row :=
  numbered_rows (has_output_attributes l_out_attrs r_out_attrs)
    (left_dict ltable l) (out_attrs_indices l) r 1
    (tables_pairs self ltable rtable l r).

Lemma elem_of_row_candidates self ordering
    (prefix_index : gmap token (gset value)) r (r_row : row) c :
  c ∈ row_candidates get_prefix_length self ordering prefix_index r r_row
  ↔ str (r_row !!! filter_attr_index r) ≠ EmptyString
    ∧ ∃ tok, tok ∈ prefix_tokens get_prefix_length self ordering
                     (str (r_row !!! filter_attr_index r))
             ∧ c ∈ probe prefix_index tok.
Proof.
  unfold row_candidates, probe_candidates. case_decide as He.
  - split; [by intros ?%elem_of_nil|by intros [? _]].
  - rewrite elem_of_elements, elem_of_union_list. split.
    + intros (X & (tok & -> & Htok)%list_elem_of_fmap & Hc). eauto.
    + intros (_ & tok & Htok & Hc). exists (probe prefix_index tok).
      split; [|done]. apply list_elem_of_fmap. eauto.
Qed.

Lemma elem_of_candidate_pairs self ordering
    (prefix_index : gmap token (gset value)) r (right_rows : list row) p :
  p ∈ candidate_pairs get_prefix_length self ordering prefix_index r
        right_rows
  ↔ p.2 ∈ right_rows
    ∧ p.1 ∈ row_candidates get_prefix_length self ordering prefix_index r p.2.
Proof.
  unfold candidate_pairs. rewrite list_elem_of_bind. split.
  - intros (r_row & (c & -> & Hc)%list_elem_of_fmap & Hr). done.
  - intros [Hr Hc]. exists p.2. split; [|done].
    apply list_elem_of_fmap. exists p.1. by destruct p.
Qed.

Lemma elem_of_indexed_keys self ordering key_attr index_attr
    (table : list row) tok k :
  k ∈ indexed_keys get_prefix_length self ordering key_attr index_attr
        table tok
  ↔ ∃ l_row, l_row ∈ table ∧ l_row !!! key_attr = k
             ∧ is_empty_field (l_row !!! index_attr) = false
             ∧ tok ∈ prefix_tokens get_prefix_length self ordering
                       (str (l_row !!! index_attr)).
Proof.
  unfold indexed_keys, indexed_rows.
  rewrite elem_of_list_to_set, list_elem_of_fmap.
  setoid_rewrite list_elem_of_filter. naive_solver.
Qed.

(** Every token of the two dictionaries' texts has a rank. *)
Lemma tables_ordering_covers self ltable rtable l r :
  covers self (tables_ordering self ltable rtable l r)
         (filter_attr_index l) (dict_values (left_dict ltable l))
  ∧ covers self (tables_ordering self ltable rtable l r)
           (filter_attr_index r) (dict_values (right_dict rtable r)).
Proof.
  unfold covers, tables_ordering, gen_token_ordering_for_tables.
  split; intros r0 t Hr0 Ht; apply build_token_ordering_dom;
    apply elem_of_union_list.
  - exists (token_set (tokenizer self (str (r0 !!! filter_attr_index l)))).
    split; [|unfold token_set; by apply elem_of_list_to_set].
    cbn. rewrite !elem_of_app, !list_elem_of_fmap. eauto.
  - exists (token_set (tokenizer self (str (r0 !!! filter_attr_index r)))).
    split; [|unfold token_set; by apply elem_of_list_to_set].
    cbn. rewrite !elem_of_app, !list_elem_of_fmap. eauto.
Qed.

(** Every candidate is a key of the left dictionary. *)
Lemma tables_pairs_known self ltable rtable l r p :
  p ∈ tables_pairs self ltable rtable l r →
  is_Some (dict_lookup (left_dict ltable l) p.1).
Proof.
  intros [_ Hc]%elem_of_candidate_pairs.
  apply elem_of_row_candidates in Hc as (_ & tok & _ & Hc).
  unfold tables_index in Hc.
  destruct (tables_ordering_covers self ltable rtable l r) as [Hcov _].
  destruct (PrefixIndex_build_spec get_prefix_length self _
              (key_attr_index l) _ _ Hcov) as [_ Hprobe].
  rewrite Hprobe in Hc.
  apply elem_of_indexed_keys in Hc as (l_row & Hl & <- & _).
  unfold dict_values in Hl.
  apply list_elem_of_fmap in Hl as ([k l_row'] & -> & Hl).
  apply build_dict_elem in Hl as [Hl _]. cbn.
  by apply build_dict_lookup_is_Some.
Qed.

(** Once the columns are found the call returns: it binds every local
    and its table holds the numbered candidate pairs. *)
Lemma filter_tables_run_found self ltable rtable
    l_key_attr r_key_attr l_filter_attr r_filter_attr
    l_out_attrs r_out_attrs l_out_prefix r_out_prefix l r :
  find_l_indices (columns ltable) l_key_attr l_filter_attr l_out_attrs = Ok l →
  find_r_indices (columns rtable) r_key_attr r_filter_attr r_out_attrs = Ok r →
  filter_tables_run get_prefix_length self ltable rtable
    l_key_attr r_key_attr l_filter_attr r_filter_attr
    l_out_attrs r_out_attrs l_out_prefix r_out_prefix
  = ({| f_ltable_dict := Some (left_dict ltable l);
        f_rtable_dict := Some (right_dict rtable r);
        f_token_ordering := Some (tables_ordering self ltable rtable l r);
        f_prefix_index := Some (tables_index self ltable rtable l r);
        f_output_rows :=
          Some (tables_rows self ltable rtable l r l_out_attrs r_out_attrs) |},
     Ok {| columns :=
             get_output_header_from_tables "_id" l_key_attr r_key_attr
               l_out_attrs r_out_attrs l_out_prefix r_out_prefix;
           itertuples :=
             tables_rows self ltable rtable l r l_out_attrs r_out_attrs |}).
Proof.
  intros Hl Hr. unfold filter_tables_run. rewrite Hl, Hr.
  fold (left_dict ltable l) (right_dict rtable r).
  fold (tables_ordering self ltable rtable l r).
  destruct (tables_ordering_covers self ltable rtable l r) as [Hcl Hcr].
  destruct (PrefixIndex_build_spec get_prefix_length self _
              (key_attr_index l) _ _ Hcl) as [Hbuilt _].
  cbn zeta. rewrite Hbuilt.
  fold (tables_index self ltable rtable l r).
  fold (has_output_attributes l_out_attrs r_out_attrs).
  rewrite probe_loop_spec; [|done|].
  2:{ intros _ p Hp. by apply tables_pairs_known in Hp. }
  done.
Qed.

End call.

(** ** Column lookups *)

Lemma list_index_spec (attr : string) (cols : list string) :
  match list_index attr cols with
  | Ok i => cols !! i = Some attr
  | Err e => e = ValueError attr ∧ attr ∉ cols
  end.
Proof.
  induction cols as [|c cols IH]; cbn.
  - split; [done|]. apply not_elem_of_nil.
  - destruct (decide (c = attr)) as [->|Hne]; [done|].
    destruct (list_index attr cols) as [i|e]; cbn; [done|].
    destruct IH as [-> Hnin]. split; [done|].
    intros [->|?]%elem_of_cons; done.
Qed.

Lemma list_indices_spec (attrs cols : list string) :
  match mapR (λ attr, list_index attr cols) attrs with
  | Ok _ => ∀ attr, attr ∈ attrs → attr ∈ cols
  | Err e => ∃ attr, e = ValueError attr ∧ attr ∈ attrs ∧ attr ∉ cols
  end.
Proof.
  induction attrs as [|a attrs IH]; cbn.
  - by intros attr ?%elem_of_nil.
  - pose proof (list_index_spec a cols) as Ha.
    destruct (list_index a cols) as [i|e]; cbn.
    + destruct (mapR _ attrs) as [idxs|e]; cbn.
      * intros attr [->|Hin]%elem_of_cons; [|by apply IH].
        by apply list_elem_of_lookup_2 in Ha.
      * destruct IH as (attr & -> & Hin & Hnin). exists attr.
        split; [done|]. split; [by apply list_elem_of_further|done].
    + destruct Ha as [-> Hnin]. exists a.
      split; [done|]. split; [apply list_elem_of_here|done].
Qed.

Lemma out_indices_spec (cols : list string) (key_attr filter_attr : string)
    (k f : nat) (attrs : list string) :
  key_attr ∈ cols → filter_attr ∈ cols →
  match mapR (λ attr, list_index attr cols) attrs
        ≫= λ o, Ok {| key_attr_index := k; filter_attr_index := f;
                      out_attrs_indices := o |} with
  | Ok _ => ∀ attr, attr ∈ key_attr :: filter_attr :: attrs → attr ∈ cols
  | Err e => ∃ attr, e = ValueError attr
                     ∧ attr ∈ key_attr :: filter_attr :: attrs
                     ∧ attr ∉ cols
  end.
Proof.
  intros Hk Hf. pose proof (list_indices_spec attrs cols) as Ho.
  destruct (mapR _ attrs) as [idxs|e]; cbn.
  - intros attr. rewrite !elem_of_cons. naive_solver.
  - destruct Ho as (attr & -> & Hin & Hnin). exists attr.
    split; [done|]. split; [|done]. by do 2 apply list_elem_of_further.
Qed.

(** The names a call asks of a table: the key attribute, the filter
    attribute and the output attributes. *)
Definition asked_attrs (key_attr filter_attr : string)
    (out_attrs : option (list string)) : list string :=
  key_attr :: filter_attr :: default [] out_attrs.

Lemma find_l_indices_spec cols key_attr filter_attr out_attrs :
  match find_l_indices cols key_attr filter_attr out_attrs with
  | Ok _ => ∀ attr, attr ∈ asked_attrs key_attr filter_attr out_attrs →
                    attr ∈ cols
  | Err e => ∃ attr, e = ValueError attr
                     ∧ attr ∈ asked_attrs key_attr filter_attr out_attrs
                     ∧ attr ∉ cols
  end.
Proof.
  unfold find_l_indices, asked_attrs.
  pose proof (list_index_spec key_attr cols) as Hk.
  destruct (list_index key_attr cols) as [k|e]; cbn.
  2:{ destruct Hk as [-> Hk]. exists key_attr. set_solver. }
  pose proof (list_index_spec filter_attr cols) as Hf.
  destruct (list_index filter_attr cols) as [f|e]; cbn.
  2:{ destruct Hf as [-> Hf]. exists filter_attr. set_solver. }
  apply list_elem_of_lookup_2 in Hk, Hf.
  destruct out_attrs as [attrs|]; cbn.
  - pose proof (list_indices_spec attrs cols) as Ho.
    destruct (mapR _ attrs) as [idxs|e]; cbn.
    + intros attr. rewrite !elem_of_cons. naive_solver.
    + destruct Ho as (attr & -> & Hin & Hnin). exists attr. set_solver.
  - intros attr. rewrite !elem_of_cons. set_solver.
Qed.

Lemma find_r_indices_spec cols key_attr filter_attr out_attrs :
  match find_r_indices cols key_attr filter_attr out_attrs with
  | Ok _ => ∀ attr, attr ∈ asked_attrs key_attr filter_attr out_attrs →
                    attr ∈ cols
  | Err e => ∃ attr, e = ValueError attr
                     ∧ attr ∈ asked_attrs key_attr filter_attr out_attrs
                     ∧ attr ∉ cols
  end.
Proof.
  unfold find_r_indices, asked_attrs.
  pose proof (list_index_spec key_attr cols) as Hk.
  destruct (list_index key_attr cols) as [k|e]; cbn.
  2:{ destruct Hk as [-> Hk]. exists key_attr. set_solver. }
  pose proof (list_index_spec filter_attr cols) as Hf.
  destruct (list_index filter_attr cols) as [f|e]; cbn.
  2:{ destruct Hf as [-> Hf]. exists filter_attr. set_solver. }
  apply list_elem_of_lookup_2 in Hk, Hf.
  destruct out_attrs as [[|a attrs]|].
  - cbn. intros attr. rewrite !elem_of_cons. set_solver.
  - exact (out_indices_spec cols key_attr filter_attr k f (a :: attrs) Hk Hf).
  - cbn. intros attr. rewrite !elem_of_cons. set_solver.
Qed.

(** ** The rows of the candidate table *)


Definition row_pair (output_row : row) : value * value :=
  (output_row !!! 1, output_row !!! 2).

Section rows.
Context {float : Type} (get_prefix_length : nat → string → float → nat).
Implicit Types (self : @PrefixFilter float) (ordering : gmap token nat).
Implicit Types (ltable rtable : DataFrame) (l r : attr_indices).

(** The keys of the pairs found for one right row. *)
Definition row_key_pairs self ordering (prefix_index : gmap token (gset value))
    r (r_row : row) : list (value * value) :=
  (λ cand, (cand, r_row !!! key_attr_index r))
  <$> row_candidates get_prefix_length self ordering prefix_index r r_row.


Lemma output_row_pair has_out ld li r cid (p : value * row) :
  row_pair (output_row has_out ld li r cid p) = (p.1, p.2 !!! key_attr_index r).
Proof. unfold output_row. by destruct has_out. Qed.

Lemma numbered_rows_lookup has_out ld li r first (pairs : list (value * row))
    i out_row :
  numbered_rows has_out ld li r first pairs !! i = Some out_row →
  ∃ p, pairs !! i = Some p
       ∧ out_row = output_row has_out ld li r (first + Z.of_nat i) p.
Proof.
  unfold numbered_rows. rewrite list_lookup_imap.
  destruct (pairs !! i) as [p|]; [|done]. intros [= <-]. by exists p.
Qed.

Lemma numbered_rows_pairs has_out ld li r first (pairs : list (value * row)) :
  row_pair <$> numbered_rows has_out ld li r first pairs
  = (λ p, (p.1, p.2 !!! key_attr_index r)) <$> pairs.
Proof.
  revert first. induction pairs as [|p pairs IH]; intros first; [done|].
  change (p :: pairs) with ([p] ++ pairs).
  rewrite numbered_rows_app, !fmap_app, IH. f_equal.
  cbn. by rewrite output_row_pair.
Qed.

Lemma candidate_pairs_keys self ordering (prefix_index : gmap token (gset value))
    r (right_rows : list row) :
  (λ p : value * row, (p.1, p.2 !!! key_attr_index r))
  <$> candidate_pairs get_prefix_length self ordering prefix_index r right_rows
  = right_rows ≫= row_key_pairs self ordering prefix_index r.
Proof.
  unfold candidate_pairs, row_key_pairs.
  induction right_rows as [|r_row right_rows IH]; [done|].
  cbn. rewrite fmap_app, IH. f_equal. by rewrite <-list_fmap_compose.
Qed.

(** A call that returns a table found its columns, and the table is the
    one of [filter_tables_run_found]. *)
Lemma filter_tables_Ok_inv self ltable rtable
    l_key_attr r_key_attr l_filter_attr r_filter_attr
    l_out_attrs r_out_attrs l_out_prefix r_out_prefix out :
  filter_tables get_prefix_length self ltable rtable
    l_key_attr r_key_attr l_filter_attr r_filter_attr
    l_out_attrs r_out_attrs l_out_prefix r_out_prefix = Ok out →
  ∃ l r,
    find_l_indices (columns ltable) l_key_attr l_filter_attr l_out_attrs = Ok l
    ∧ find_r_indices (columns rtable) r_key_attr r_filter_attr r_out_attrs = Ok r
    ∧ itertuples out
      = tables_rows get_prefix_length self ltable rtable l r
          l_out_attrs r_out_attrs
    ∧ columns out
      = get_output_header_from_tables "_id" l_key_attr r_key_attr
          l_out_attrs r_out_attrs l_out_prefix r_out_prefix.
Proof.
  unfold filter_tables.
  destruct (find_l_indices _ _ _ _) as [l|e] eqn:Hl.
  2:{ unfold filter_tables_run. by rewrite Hl. }
  destruct (find_r_indices _ _ _ _) as [r|e] eqn:Hr.
  2:{ unfold filter_tables_run. by rewrite Hl, Hr. }
  rewrite (filter_tables_run_found get_prefix_length self ltable rtable
             _ _ _ _ _ _ _ _ l r Hl Hr). cbn.
  intros [= <-]. by exists l, r.
Qed.

(** The right rows of a call carry distinct keys. *)
Lemma right_dict_values_NoDup rtable r :
  NoDup ((λ r_row : row, r_row !!! key_attr_index r)
         <$> dict_values (right_dict rtable r)).
Proof.
  unfold right_dict. rewrite build_dict_values_keys.
  apply build_dict_keys_NoDup.
Qed.

Lemma NoDup_fmap_eq {A B} (f : A → B) (xs : list A) x1 x2 :
  NoDup (f <$> xs) → x1 ∈ xs → x2 ∈ xs → f x1 = f x2 → x1 = x2.
Proof.
  induction xs as [|x xs IH]; [by intros _ ?%elem_of_nil|].
  cbn. intros [Hx Hxs]%NoDup_cons [->|H1]%elem_of_cons [->|H2]%elem_of_cons Hf;
    [done| | |by apply IH].
  - exfalso. apply Hx. rewrite Hf. by apply list_elem_of_fmap_2.
  - exfalso. apply Hx. rewrite <-Hf. by apply list_elem_of_fmap_2.
Qed.

Lemma row_key_pairs_NoDup self ordering (prefix_index : gmap token (gset value))
    r (right_rows : list row) :
  NoDup ((λ r_row : row, r_row !!! key_attr_index r) <$> right_rows) →
  NoDup (right_rows ≫= row_key_pairs self ordering prefix_index r).
Proof.
  intros Hnd. apply NoDup_bind.
  - intros r1 r2 [c k] Hr1 Hr2.
    unfold row_key_pairs. rewrite !list_elem_of_fmap.
    intros (c1 & [= -> Hk1] & _) (c2 & [= _ Hk2] & _).
    apply (NoDup_fmap_eq _ _ _ _ Hnd Hr1 Hr2). congruence.
  - intros r_row _. unfold row_key_pairs, row_candidates.
    apply NoDup_fmap_2; [by intros c1 c2 [=]|].
    case_decide; [constructor|apply NoDup_elements].
  - by apply NoDup_fmap_1 in Hnd.
Qed.


(** C6. In every table that [filter_tables] returns, each (left key,
    right key) pair stands in at most one row. *)
Theorem candidate_pairs_distinct self ltable rtable
    l_key_attr r_key_attr l_filter_attr r_filter_attr
    l_out_attrs r_out_attrs l_out_prefix r_out_prefix out :
  filter_tables get_prefix_length self ltable rtable
    l_key_attr r_key_attr l_filter_attr r_filter_attr
    l_out_attrs r_out_attrs l_out_prefix r_out_prefix = Ok out →
  NoDup (row_pair <$> itertuples out).
Proof.
  intros (l & r & Hl & Hr & Hrows & _)%filter_tables_Ok_inv.
  rewrite Hrows. unfold tables_rows, tables_pairs.
  rewrite numbered_rows_pairs, candidate_pairs_keys.
  apply row_key_pairs_NoDup, right_dict_values_NoDup.
Qed.

(** C4. When a key, filter or requested output attribute is missing
    from its table's columns, [filter_tables] raises the error of an
    unknown field, naming a missing attribute, and none of its locals is
    bound by then: neither dictionary, nor the token ordering, nor the
    prefix index, nor the list of output rows. *)
Theorem unknown_field_fails_first self ltable rtable
    l_key_attr r_key_attr l_filter_attr r_filter_attr
    l_out_attrs r_out_attrs l_out_prefix r_out_prefix :
  (∃ attr, attr ∈ asked_attrs l_key_attr l_filter_attr l_out_attrs
           ∧ attr ∉ columns ltable)
  ∨ (∃ attr, attr ∈ asked_attrs r_key_attr r_filter_attr r_out_attrs
             ∧ attr ∉ columns rtable) →
  ∃ attr,
    filter_tables_run get_prefix_length self ltable rtable
      l_key_attr r_key_attr l_filter_attr r_filter_attr
      l_out_attrs r_out_attrs l_out_prefix r_out_prefix
    = (no_locals, Err (UnknownField attr))
    ∧ filter_tables get_prefix_length self ltable rtable
        l_key_attr r_key_attr l_filter_attr r_filter_attr
        l_out_attrs r_out_attrs l_out_prefix r_out_prefix
      = Err (UnknownField attr)
    ∧ ((attr ∈ asked_attrs l_key_attr l_filter_attr l_out_attrs
        ∧ attr ∉ columns ltable)
       ∨ (attr ∈ asked_attrs r_key_attr r_filter_attr r_out_attrs
          ∧ attr ∉ columns rtable)).
Proof.
  intros Hmiss. unfold filter_tables, filter_tables_run.
  pose proof (find_l_indices_spec (columns ltable) l_key_attr l_filter_attr
                l_out_attrs) as Hl.
  destruct (find_l_indices _ _ _ _) as [l|e].
  2:{ destruct Hl as (attr & -> & Hin & Hnin). exists attr. eauto. }
  pose proof (find_r_indices_spec (columns rtable) r_key_attr r_filter_attr
                r_out_attrs) as Hr.
  destruct (find_r_indices _ _ _ _) as [r|e].
  2:{ destruct Hr as (attr & -> & Hin & Hnin). exists attr. eauto. }
  exfalso. destruct Hmiss as [(attr & Hin & Hnin)|(attr & Hin & Hnin)]; eauto.
Qed.

End rows.

(** ** Examples *)

(** A tokenizer that splits at white space, and a prefix length with the
    threshold in percent: Jaccard's bound n - ⌈t n⌉ + 1, at most n. *)
Definition whitespace_tokenizer : string → list token := String.words.

Definition percent_prefix_length (n : nat) (measure : string) (percent : nat)
    : nat :=
  Nat.min n (n + 1 - (percent * n + 99) / 100).

Definition jaccard_filter (percent : nat) : PrefixFilter :=
  {| tokenizer := whitespace_tokenizer;
     sim_measure_type := "JACCARD";
     threshold := percent |}.

Definition mice : DataFrame :=
  {| columns := ["id"; "name"];
     itertuples := [[VInt 1; VStr "mouse"];
                    [VInt 2; VStr "keyboard"];
                    [VInt 3; VStr "optical mouse"]] |}.

Definition pads : DataFrame :=
  {| columns := ["id"; "name"];
     itertuples := [[VInt 1; VStr "mouse pad"];
                    [VInt 2; VStr ""];
                    [VInt 3; VStr "optical mouse pad"]] |}.

Lemma percent_prefix_length_range (percent n : nat) :
  percent ≤ 100 → 1 ≤ n →
  1 ≤ percent_prefix_length n "JACCARD" percent ≤ n.
Proof.
  intros Hp Hn. unfold percent_prefix_length.
  pose proof (Nat.div_mod_eq (percent * n + 99) 100) as Hdiv.
  pose proof (Nat.mod_upper_bound (percent * n + 99) 100) as Hmod.
  nia.
Qed.

Lemma filter_pair_same_string_kept_witness :
  filter_pair percent_prefix_length (jaccard_filter 30)
    (Some "mouse pad") (Some "mouse pad") = Ok false.
Proof.
  apply (filter_pair_same_string_kept percent_prefix_length (jaccard_filter 30)
           "mouse pad").
  - intros n Hn. apply percent_prefix_length_range; [cbn; lia|done].
  - done.
  - by vm_compute.
Defined.


(** ** Duplicate keys *)

Section duplicates.
Context {float : Type} (get_prefix_length : nat → string → float → nat).
Implicit Types (self : @PrefixFilter float) (ordering : gmap token nat).
Implicit Types (ltable rtable : DataFrame) (l r : attr_indices).

(** The last row of a table that bears the key [k]. *)
Definition last_row_with_key (rows : list row) (key_attr_index : nat)
    (k : value) : option row :=
  last (filter (λ x : row, x !!! key_attr_index = k) rows).

Lemma build_dict_values_last rows i (x : row) :
  x ∈ dict_values (build_dict rows i) →
  last_row_with_key rows i (x !!! i) = Some x.
Proof.
  unfold dict_values, last_row_with_key.
  intros ([k x'] & -> & Hin)%list_elem_of_fmap. cbn.
  rewrite <-build_dict_lookup.
  pose proof (build_dict_elem _ _ _ _ Hin) as [_ ->].
  apply dict_lookup_elem; [apply build_dict_keys_NoDup|done].
Qed.

End duplicates.

(** ** A stricter threshold *)

(** The same filter with another threshold. *)
Definition with_threshold {float : Type} (self : @PrefixFilter float)
    (t : float) : PrefixFilter :=
  {| tokenizer := tokenizer self;
     sim_measure_type := sim_measure_type self;
     threshold := t |}.

Section monotone.
Context {float : Type} (get_prefix_length : nat → string → float → nat).
Implicit Types (self : @PrefixFilter float) (ordering : gmap token nat).
Implicit Types (ltable rtable : DataFrame) (l r : attr_indices).

(** [other] takes prefixes no longer than those of [self]. *)
Definition shorter_prefixes self (other : @PrefixFilter float) : Prop :=
  tokenizer other = tokenizer self
  ∧ ∀ n, get_prefix_length n (sim_measure_type other) (threshold other)
         ≤ get_prefix_length n (sim_measure_type self) (threshold self).

Lemma prefix_tokens_shorter self other ordering s tok :
  shorter_prefixes self other →
  tok ∈ prefix_tokens get_prefix_length other ordering s →
  tok ∈ prefix_tokens get_prefix_length self ordering s.
Proof.
  intros [Htok Hle]. unfold prefix_tokens, ordered_tokens. rewrite Htok.
  rewrite !elem_of_take. intros (i & Hi & Hlt). exists i. split; [done|].
  eapply Nat.lt_le_trans; [done|apply Hle].
Qed.

Lemma indexed_keys_shorter self other ordering key_attr index_attr
    (table : list row) tok :
  shorter_prefixes self other →
  indexed_keys get_prefix_length other ordering key_attr index_attr table tok
  ⊆ indexed_keys get_prefix_length self ordering key_attr index_attr table tok.
Proof.
  intros Hs k. rewrite !elem_of_indexed_keys.
  intros (l_row & Hin & Hk & He & Hp). exists l_row.
  repeat (split; [done|]). by eapply prefix_tokens_shorter.
Qed.

Lemma row_candidates_shorter self other ordering
    (index index' : gmap token (gset value)) r (r_row : row) :
  shorter_prefixes self other →
  (∀ tok, probe index' tok ⊆ probe index tok) →
  length (row_candidates get_prefix_length other ordering index' r r_row)
  ≤ length (row_candidates get_prefix_length self ordering index r r_row).
Proof.
  intros Hs Hidx. unfold row_candidates. case_decide; [done|].
  apply (subseteq_size (probe_candidates index' _) (probe_candidates index _)).
  intros c.
  unfold probe_candidates. rewrite !elem_of_union_list.
  intros (X & (tok & -> & Htok)%list_elem_of_fmap & Hc).
  exists (probe index tok). split; [|by apply Hidx].
  apply list_elem_of_fmap. exists tok. split; [done|].
  by eapply prefix_tokens_shorter.
Qed.

Lemma candidate_pairs_shorter self other ordering
    (index index' : gmap token (gset value)) r (right_rows : list row) :
  shorter_prefixes self other →
  (∀ tok, probe index' tok ⊆ probe index tok) →
  length (candidate_pairs get_prefix_length other ordering index' r right_rows)
  ≤ length (candidate_pairs get_prefix_length self ordering index r right_rows).
Proof.
  intros Hs Hidx. unfold candidate_pairs.
  induction right_rows as [|r_row right_rows IH]; [done|].
  cbn. rewrite !length_app, !length_fmap.
  pose proof (row_candidates_shorter self other ordering index index' r r_row
                Hs Hidx).
  lia.
Qed.

Lemma tables_rows_shorter self other ltable rtable l r
    (l_out_attrs r_out_attrs : option (list string)) :
  shorter_prefixes self other →
  length (tables_rows get_prefix_length other ltable rtable l r
            l_out_attrs r_out_attrs)
  ≤ length (tables_rows get_prefix_length self ltable rtable l r
              l_out_attrs r_out_attrs).
Proof.
  intros Hs. unfold tables_rows. rewrite !length_numbered_rows.
  unfold tables_pairs, tables_index.
  assert (tables_ordering other ltable rtable l r
          = tables_ordering self ltable rtable l r) as ->.
  { unfold tables_ordering. by destruct Hs as [-> _]. }
  apply candidate_pairs_shorter; [done|]. intros tok.
  destruct (tables_ordering_covers self ltable rtable l r) as [Hcov _].
  assert (covers other (tables_ordering self ltable rtable l r)
            (filter_attr_index l) (dict_values (left_dict ltable l))) as Hcov'.
  { unfold covers in *. by destruct Hs as [-> _]. }
  destruct (PrefixIndex_build_spec get_prefix_length self _
              (key_attr_index l) _ _ Hcov) as [_ ->].
  destruct (PrefixIndex_build_spec get_prefix_length other _
              (key_attr_index l) _ _ Hcov') as [_ ->].
  by apply indexed_keys_shorter.
Qed.

(** C8. When prefix lengths do not grow with the threshold, a call of
    [filter_tables] on the same tables with a threshold at least as high
    returns a table with no more rows. *)
Theorem stricter_threshold_no_more_rows (threshold_le : float → float → Prop)
    self (stricter : float) ltable rtable
    l_key_attr r_key_attr l_filter_attr r_filter_attr
    l_out_attrs r_out_attrs l_out_prefix r_out_prefix out :
  (∀ n measure t t', threshold_le t t' →
     get_prefix_length n measure t' ≤ get_prefix_length n measure t) →
  threshold_le (threshold self) stricter →
  filter_tables get_prefix_length self ltable rtable
    l_key_attr r_key_attr l_filter_attr r_filter_attr
    l_out_attrs r_out_attrs l_out_prefix r_out_prefix = Ok out →
  ∃ out',
    filter_tables get_prefix_length (with_threshold self stricter) ltable rtable
      l_key_attr r_key_attr l_filter_attr r_filter_attr
      l_out_attrs r_out_attrs l_out_prefix r_out_prefix = Ok out'
    ∧ length (itertuples out') ≤ length (itertuples out).
Proof.
  intros Hmono Hle (l & r & Hl & Hr & Hrows & _)%filter_tables_Ok_inv.
  eexists. split.
  { unfold filter_tables.
    by rewrite (filter_tables_run_found get_prefix_length _ ltable rtable
                  _ _ _ _ _ _ _ _ l r Hl Hr). }
  cbn [itertuples]. rewrite Hrows. apply tables_rows_shorter.
  split; [done|]. intros n. cbn. by apply Hmono.
Qed.

End monotone.

(** ** The order of the right rows *)

Lemma token_freq_perm (sets sets' : list (gset token)) (t : token) :
  sets ≡ₚ sets' → token_freq sets t = token_freq sets' t.
Proof. intros Hp. unfold token_freq. by rewrite Hp. Qed.

Lemma union_list_perm (sets sets' : list (gset token)) :
  sets ≡ₚ sets' → ⋃ sets = ⋃ sets'.
Proof.
  intros Hp. apply set_eq. intros t. rewrite !elem_of_union_list.
  by setoid_rewrite Hp.
Qed.

(** The ordering counts token sets; their order does not matter. *)
Lemma build_token_ordering_perm (sets sets' : list (gset token)) :
  sets ≡ₚ sets' → build_token_ordering sets = build_token_ordering sets'.
Proof.
  intros Hp. unfold build_token_ordering.
  rewrite (union_list_perm sets sets' Hp).
  rewrite (list_fmap_ext (λ t, (token_freq sets t, t))
             (λ t, (token_freq sets' t, t))); [done|].
  intros i t _. by rewrite (token_freq_perm sets sets' t Hp).
Qed.

Section right_order.
Context {float : Type} (get_prefix_length : nat → string → float → nat).
Implicit Types (self : @PrefixFilter float) (ordering : gmap token nat).
Implicit Types (ltable rtable : DataFrame) (l r : attr_indices).




End right_order.


(** ** The claims on concrete tables *)

Ltac by_compute := apply (bool_decide_unpack _); vm_compute; exact I.

(** The candidates of [mice] and [pads] at the threshold 0.30. *)
Definition mice_pads_candidates : DataFrame :=
  {| columns := ["_id"; "l_id"; "r_id"];
     itertuples := [[VInt 1; VInt 3; VInt 1]; [VInt 2; VInt 1; VInt 1];
                    [VInt 3; VInt 3; VInt 3]; [VInt 4; VInt 1; VInt 3]] |}.



(** Tables for the corner cases: a left row whose text is the word None,
    a right row whose text is missing, and a right table in which one key
    stands in two rows. *)
Definition none_left : DataFrame :=
  {| columns := ["id"; "name"]; itertuples := [[VInt 1; VStr "None"]] |}.

Definition null_right : DataFrame :=
  {| columns := ["id"; "name"]; itertuples := [[VInt 7; VNone]] |}.

Definition one_mouse : DataFrame :=
  {| columns := ["id"; "name"]; itertuples := [[VInt 1; VStr "mouse"]] |}.

Definition twice_one : DataFrame :=
  {| columns := ["id"; "name"];
     itertuples := [[VInt 1; VStr "mouse"]; [VInt 1; VStr "pad"]] |}.

Definition twice_one_rearranged : DataFrame :=
  {| columns := ["id"; "name"];
     itertuples := [[VInt 1; VStr "pad"]; [VInt 1; VStr "mouse"]] |}.

Lemma percent_prefix_length_mono (n : nat) (measure : string) (t t' : nat) :
  t ≤ t' →
  percent_prefix_length n measure t' ≤ percent_prefix_length n measure t.
Proof.
  intros Hle. unfold percent_prefix_length.
  assert ((t * n + 99) / 100 ≤ (t' * n + 99) / 100).
  { apply Nat.Div0.div_le_mono. nia. }
  lia.
Qed.

Lemma mice_pads_filter_tables :
  filter_tables percent_prefix_length (jaccard_filter 30) mice pads
    "id" "id" "name" "name" None None "l_" "r_" = Ok mice_pads_candidates.
Proof. vm_compute. reflexivity. Qed.

(** The design document's example: at the threshold 0.30 the pair of
    "mouse" and "mouse pad" is a candidate, at 0.99 it is not. *)
Lemma one_mouse_pad_example :
  filter_tables percent_prefix_length (jaccard_filter 30) one_mouse
    {| columns := ["id"; "name"]; itertuples := [[VInt 1; VStr "mouse pad"]] |}
    "id" "id" "name" "name" None None "l_" "r_"
  = Ok {| columns := ["_id"; "l_id"; "r_id"];
          itertuples := [[VInt 1; VInt 1; VInt 1]] |}
  ∧ filter_tables percent_prefix_length (jaccard_filter 99) one_mouse
      {| columns := ["id"; "name"]; itertuples := [[VInt 1; VStr "mouse pad"]] |}
      "id" "id" "name" "name" None None "l_" "r_"
    = Ok {| columns := ["_id"; "l_id"; "r_id"]; itertuples := [] |}.
Proof. split; vm_compute; reflexivity. Qed.

Lemma unknown_field_fails_first_witness :
  ∃ attr,
    filter_tables_run percent_prefix_length (jaccard_filter 30) mice pads
      "id" "id" "name" "title" None None "l_" "r_"
    = (no_locals, Err (UnknownField attr))
    ∧ filter_tables percent_prefix_length (jaccard_filter 30) mice pads
        "id" "id" "name" "title" None None "l_" "r_"
      = Err (UnknownField attr)
    ∧ ((attr ∈ asked_attrs "id" "name" None ∧ attr ∉ columns mice)
       ∨ (attr ∈ asked_attrs "id" "title" None ∧ attr ∉ columns pads)).
Proof.
  apply (unknown_field_fails_first percent_prefix_length (jaccard_filter 30)
           mice pads "id" "id" "name" "title" None None "l_" "r_").
  right. exists "title". split; by_compute.
Defined.


Lemma candidate_pairs_distinct_witness :
  NoDup (row_pair <$> itertuples mice_pads_candidates).
Proof.
  exact (candidate_pairs_distinct percent_prefix_length (jaccard_filter 30)
           mice pads "id" "id" "name" "name" None None "l_" "r_"
           mice_pads_candidates mice_pads_filter_tables).
Defined.

Lemma stricter_threshold_no_more_rows_witness :
  ∃ out',
    filter_tables percent_prefix_length (with_threshold (jaccard_filter 30) 99)
      mice pads "id" "id" "name" "name" None None "l_" "r_" = Ok out'
    ∧ length (itertuples out') ≤ length (itertuples mice_pads_candidates).
Proof.
  apply (stricter_threshold_no_more_rows percent_prefix_length le
           (jaccard_filter 30) 99 mice pads
           "id" "id" "name" "name" None None "l_" "r_" mice_pads_candidates).
  - intros n measure t t'. apply percent_prefix_length_mono.
  - cbn. lia.
  - exact mice_pads_filter_tables.
Defined.

(** Keys are unique in the data model, and the code does not check it.
    On a right table with a key in two rows the row kept for the key,
    and with it the pairs, depends on the order of the rows. *)
Lemma right_permutation_changes_pairs :
  itertuples twice_one_rearranged ≡ₚ itertuples twice_one
  ∧ filter_tables percent_prefix_length (jaccard_filter 30) one_mouse twice_one
      "id" "id" "name" "name" None None "l_" "r_"
    = Ok {| columns := ["_id"; "l_id"; "r_id"]; itertuples := [] |}
  ∧ filter_tables percent_prefix_length (jaccard_filter 30) one_mouse
      twice_one_rearranged "id" "id" "name" "name" None None "l_" "r_"
    = Ok {| columns := ["_id"; "l_id"; "r_id"];
            itertuples := [[VInt 1; VInt 1; VInt 1]] |}
  ∧ ¬ (∀ p, p ∈ row_pair <$> [[VInt 1; VInt 1; VInt 1]]
            ↔ p ∈ row_pair <$> ([] : list row)).
Proof.
  split; [apply perm_swap|].
  split; [vm_compute; reflexivity|].
  split; [vm_compute; reflexivity|].
  intros Hsame. destruct (Hsame (VInt 1, VInt 1)) as [Hin _].
  cbn in Hin. eapply not_elem_of_nil, Hin, list_elem_of_here.
Qed.

(** C3 at a right row whose text is missing: [str(None)] is the word
    None, which is not empty, so the row is probed, and paired with the
    left row whose text is that word; [filter_pair] drops the same pair. *)
Lemma null_right_text_is_paired :
  filter_tables percent_prefix_length (jaccard_filter 30) none_left null_right
    "id" "id" "name" "name" None None "l_" "r_"
  = Ok {| columns := ["_id"; "l_id"; "r_id"];
          itertuples := [[VInt 1; VInt 1; VInt 7]] |}
  ∧ filter_pair percent_prefix_length (jaccard_filter 30) (Some "None") None
    = Ok true.
Proof. split; vm_compute; reflexivity. Qed.

(** * Further properties of the code *)

(** ** [filter_pair] *)

Section filter_pair_more.
Context {float : Type} (get_prefix_length : nat → string → float → nat).
Implicit Types (self : @PrefixFilter float) (lstring rstring : option string).

(** A token of the prefix of an ordered sequence is a token of the
    string. *)
Lemma prefix_token_of_string self (s : string) (ordered : list token) k t :
  ordered ≡ₚ elements (token_set (tokenizer self s)) →
  t ∈ take k ordered → t ∈ tokenizer self s.
Proof.
  intros Hp Ht. apply elem_of_take in Ht as (i & Hi & _).
  apply list_elem_of_lookup_2 in Hi. rewrite Hp in Hi.
  unfold token_set in Hi. set_solver.
Qed.

(** X1. [filter_pair] keeps a pair only if the two strings have a token in
    common: strings without a common token are dropped, whatever the
    measure, the threshold and the prefix lengths. *)
Theorem filter_pair_kept_share_token self lstring rstring :
  filter_pair get_prefix_length self lstring rstring = Ok false →
  ∃ t, t ∈ tokenizer self (the_string lstring)
       ∧ t ∈ tokenizer self (the_string rstring).
Proof.
  intros Hkept.
  destruct (py_not lstring || py_not rstring) eqn:Hne.
  { unfold filter_pair in Hkept. by rewrite Hne in Hkept. }
  destruct (filter_pair_nonempty get_prefix_length self lstring rstring Hne)
    as (ol & or & _ & _ & Hpl & Hpr & b & Hb & Hiff).
  rewrite Hkept in Hb. injection Hb as <-.
  destruct (proj1 Hiff eq_refl) as (t & Hl & Hr). exists t.
  split; by eapply prefix_token_of_string.
Qed.

(** X2. [filter_pair] treats its two strings alike. *)
Theorem filter_pair_symmetric self lstring rstring :
  filter_pair get_prefix_length self lstring rstring
  = filter_pair get_prefix_length self rstring lstring.
Proof.
  destruct (py_not lstring || py_not rstring) eqn:Hne.
  { unfold filter_pair. by rewrite (orb_comm (py_not rstring)), Hne. }
  assert (py_not rstring || py_not lstring = false) as Hne'
    by (by rewrite orb_comm).
  set (ltokens := elements (token_set (tokenizer self (the_string lstring)))).
  set (rtokens := elements (token_set (tokenizer self (the_string rstring)))).
  assert (gen_token_ordering_for_lists [rtokens; ltokens]
          = gen_token_ordering_for_lists [ltokens; rtokens]) as Hord.
  { apply build_token_ordering_perm. cbn. apply perm_swap. }
  destruct (order_using_token_ordering_ok ltokens
              (gen_token_ordering_for_lists [ltokens; rtokens]))
    as (ol & Hol & _).
  { intros t Ht. apply pair_ordering_covers. by left. }
  destruct (order_using_token_ordering_ok rtokens
              (gen_token_ordering_for_lists [ltokens; rtokens]))
    as (or & Hor & _).
  { intros t Ht. apply pair_ordering_covers. by right. }
  unfold filter_pair. rewrite Hne, Hne'.
  fold ltokens rtokens. rewrite Hord, Hol, Hor. cbn.
  by rewrite (comm_L (∩) (token_set (take _ ol))).
Qed.

(** X3. With prefixes at least as long, a pair that was kept is still
    kept. *)
Theorem filter_pair_longer_prefixes_keep
    (longer : nat → string → float → nat) self lstring rstring :
  (∀ n, get_prefix_length n (sim_measure_type self) (threshold self)
        ≤ longer n (sim_measure_type self) (threshold self)) →
  filter_pair get_prefix_length self lstring rstring = Ok false →
  filter_pair longer self lstring rstring = Ok false.
Proof.
  intros Hle Hkept.
  destruct (py_not lstring || py_not rstring) eqn:Hne.
  { unfold filter_pair in Hkept. by rewrite Hne in Hkept. }
  destruct (filter_pair_nonempty get_prefix_length self lstring rstring Hne)
    as (ol & or & Hol & Hor & _ & _ & b & Hb & Hiff).
  destruct (filter_pair_nonempty longer self lstring rstring Hne)
    as (ol' & or' & Hol' & Hor' & _ & _ & b' & Hb' & Hiff').
  rewrite Hol in Hol'. rewrite Hor in Hor'.
  injection Hol' as <-. injection Hor' as <-.
  rewrite Hkept in Hb. injection Hb as <-.
  rewrite Hb'. f_equal. apply Hiff'.
  destruct (proj1 Hiff eq_refl) as (t & Hl & Hr). exists t.
  apply elem_of_take in Hl as (i & Hi & Hlt).
  apply elem_of_take in Hr as (j & Hj & Hlt').
  split; apply elem_of_take; [exists i|exists j]; (split; [done|]);
    (eapply Nat.lt_le_trans; [done|apply Hle]).
Qed.

End filter_pair_more.

(** ** [filter_tables] *)

(** X4. [columns.index(attr)] finds the first column of that name. *)
Theorem list_index_first (attr : string) (cols : list string) (i : nat) :
  list_index attr cols = Ok i →
  cols !! i = Some attr ∧ ∀ j, j < i → cols !! j ≠ Some attr.
Proof.
  revert i. induction cols as [|c cols IH]; intros i; cbn; [done|].
  destruct (decide (c = attr)) as [->|Hne].
  - intros [= <-]. split; [done|]. intros j Hj. lia.
  - destruct (list_index attr cols) as [i'|e]; cbn; [|done].
    intros [= <-]. destruct (IH i' eq_refl) as [Hi' Hfirst].
    split; [done|]. intros [|j] Hj; cbn; [congruence|].
    apply Hfirst. lia.
Qed.

Section filter_tables_more.
Context {float : Type} (get_prefix_length : nat → string → float → nat).
Implicit Types (self : @PrefixFilter float) (ordering : gmap token nat).
Implicit Types (ltable rtable : DataFrame) (l r : attr_indices).

(** The left row [l_row] and the right row [r_row] pass the prefix test
    under the ordering of the call: neither text is skipped and the two
    prefixes have a token in common. *)
Definition prefixes_meet self ordering l r (l_row r_row : row) : Prop :=
  is_empty_field (l_row !!! filter_attr_index l) = false
  ∧ str (r_row !!! filter_attr_index r) ≠ EmptyString
  ∧ share_token
      (prefix_tokens get_prefix_length self ordering
         (str (l_row !!! filter_attr_index l)))
      (prefix_tokens get_prefix_length self ordering
         (str (r_row !!! filter_attr_index r))).

Lemma elem_of_tables_pairs self ltable rtable l r (p : value * row) :
  p ∈ tables_pairs get_prefix_length self ltable rtable l r
  ↔ p.2 ∈ dict_values (right_dict rtable r)
    ∧ ∃ l_row, l_row ∈ dict_values (left_dict ltable l)
               ∧ l_row !!! key_attr_index l = p.1
               ∧ prefixes_meet self (tables_ordering self ltable rtable l r)
                   l r l_row p.2.
Proof.
  unfold tables_pairs. rewrite elem_of_candidate_pairs, elem_of_row_candidates.
  unfold tables_index.
  destruct (tables_ordering_covers self ltable rtable l r) as [Hcov _].
  destruct (PrefixIndex_build_spec get_prefix_length self _
              (key_attr_index l) _ _ Hcov) as [_ Hprobe].
  setoid_rewrite Hprobe. setoid_rewrite elem_of_indexed_keys.
  unfold prefixes_meet, share_token. naive_solver.
Qed.

Lemma elem_of_tables_rows_pairs self ltable rtable l r
    (l_out_attrs r_out_attrs : option (list string)) l_id r_id :
  (l_id, r_id)
  ∈ row_pair <$> tables_rows get_prefix_length self ltable rtable l r
                   l_out_attrs r_out_attrs
  ↔ ∃ l_row r_row,
      l_row ∈ dict_values (left_dict ltable l)
      ∧ r_row ∈ dict_values (right_dict rtable r)
      ∧ l_row !!! key_attr_index l = l_id
      ∧ r_row !!! key_attr_index r = r_id
      ∧ prefixes_meet self (tables_ordering self ltable rtable l r)
          l r l_row r_row.
Proof.
  unfold tables_rows.
  rewrite numbered_rows_pairs, list_elem_of_fmap. split.
  - intros ([cand r_row] & [= -> ->] & Hp).
    apply elem_of_tables_pairs in Hp as (Hr_row & l_row & Hl_row & Hk & Hm).
    cbn in *. by exists l_row, r_row.
  - intros (l_row & r_row & Hl_row & Hr_row & <- & <- & Hm).
    exists (l_row !!! key_attr_index l, r_row). split; [done|].
    apply elem_of_tables_pairs. split; [done|]. by exists l_row.
Qed.

(** X5. Once its columns are found, [filter_tables] returns a table, and
    the table holds the pair (left key, right key) exactly when a row of the
    left dictionary with that left key and a row of the right dictionary
    with that right key pass the prefix test: the index loses no pair and
    invents none. *)
Theorem emitted_pairs_pass_prefix_test self ltable rtable
    l_key_attr r_key_attr l_filter_attr r_filter_attr
    l_out_attrs r_out_attrs l_out_prefix r_out_prefix l r :
  find_l_indices (columns ltable) l_key_attr l_filter_attr l_out_attrs = Ok l →
  find_r_indices (columns rtable) r_key_attr r_filter_attr r_out_attrs = Ok r →
  ∃ out,
    filter_tables get_prefix_length self ltable rtable
      l_key_attr r_key_attr l_filter_attr r_filter_attr
      l_out_attrs r_out_attrs l_out_prefix r_out_prefix = Ok out
    ∧ ∀ l_id r_id,
        (l_id, r_id) ∈ row_pair <$> itertuples out
        ↔ ∃ l_row r_row,
            l_row ∈ dict_values (left_dict ltable l)
            ∧ r_row ∈ dict_values (right_dict rtable r)
            ∧ l_row !!! key_attr_index l = l_id
            ∧ r_row !!! key_attr_index r = r_id
            ∧ prefixes_meet self (tables_ordering self ltable rtable l r)
                l r l_row r_row.
Proof.
  intros Hl Hr. eexists. split.
  { unfold filter_tables.
    by rewrite (filter_tables_run_found get_prefix_length self ltable rtable
                  _ _ _ _ _ _ _ _ l r Hl Hr). }
  cbn [itertuples]. intros l_id r_id. apply elem_of_tables_rows_pairs.
Qed.

(** X7. No row of the returned table pairs a right row whose text is the
    empty string, or a left row whose text is the empty string or [None]:
    the rows kept for the two keys of an output row both have a text. *)
Theorem empty_text_never_paired self ltable rtable
    l_key_attr r_key_attr l_filter_attr r_filter_attr
    l_out_attrs r_out_attrs l_out_prefix r_out_prefix out l r l_id r_id :
  find_l_indices (columns ltable) l_key_attr l_filter_attr l_out_attrs = Ok l →
  find_r_indices (columns rtable) r_key_attr r_filter_attr r_out_attrs = Ok r →
  filter_tables get_prefix_length self ltable rtable
    l_key_attr r_key_attr l_filter_attr r_filter_attr
    l_out_attrs r_out_attrs l_out_prefix r_out_prefix = Ok out →
  (l_id, r_id) ∈ row_pair <$> itertuples out →
  ∃ l_row r_row,
    last_row_with_key (itertuples ltable) (key_attr_index l) l_id = Some l_row
    ∧ last_row_with_key (itertuples rtable) (key_attr_index r) r_id
      = Some r_row
    ∧ l_row !!! filter_attr_index l ≠ VNone
    ∧ str (l_row !!! filter_attr_index l) ≠ EmptyString
    ∧ str (r_row !!! filter_attr_index r) ≠ EmptyString.
Proof.
  intros Hl Hr Hout Hin.
  apply filter_tables_Ok_inv in Hout as (l' & r' & Hl' & Hr' & Hrows & _).
  rewrite Hl in Hl'. rewrite Hr in Hr'.
  injection Hl' as <-. injection Hr' as <-. rewrite Hrows in Hin.
  apply elem_of_tables_rows_pairs
    in Hin as (l_row & r_row & Hl_row & Hr_row & <- & <- & Hm).
  destruct Hm as (He & Hne & _). exists l_row, r_row.
  split; [by apply build_dict_values_last|].
  split; [by apply build_dict_values_last|].
  unfold is_empty_field in He. apply orb_false_iff in He as [He1 He2].
  apply bool_decide_eq_false in He1, He2. done.
Qed.

End filter_tables_more.

(** ** Sizes, shadowed rows and the order of the left rows *)

Lemma length_dict_set {V} (d : list (value * V)) k v :
  length (dict_set d k v) ≤ S (length d).
Proof.
  induction d as [|[k0 v0] d IH]; cbn; [done|].
  destruct (decide (k0 = k)); cbn; lia.
Qed.

Lemma length_dict_of rows i (d : list (value * row)) :
  length (dict_of rows i d) ≤ length d + length rows.
Proof.
  revert d. induction rows as [|x rows IH]; intros d; [cbn; lia|].
  rewrite dict_of_cons. specialize (IH (dict_set d (x !!! i) x)).
  pose proof (length_dict_set d (x !!! i) x). cbn [length]. lia.
Qed.

Lemma length_build_dict rows i : length (build_dict rows i) ≤ length rows.
Proof. apply (length_dict_of rows i []). Qed.

(** Building the dictionary of a dictionary's values gives it back. *)
Lemma build_dict_idem rows i :
  build_dict (dict_values (build_dict rows i)) i = build_dict rows i.
Proof.
  change (build_dict (dict_values (build_dict rows i)) i)
    with (dict_of (dict_values (build_dict rows i)) i []).
  rewrite dict_of_distinct.
  - cbn. unfold dict_values. rewrite <-list_fmap_compose.
    rewrite (list_fmap_ext _ id); [by rewrite list_fmap_id|].
    intros j [k x] Hj. cbn.
    by apply list_elem_of_lookup_2, build_dict_elem in Hj as [_ ->].
  - cbn. rewrite build_dict_values_keys. apply build_dict_keys_NoDup.
Qed.

(** A table cut down to the last row of each key, in the order in which
    the keys first occur. *)
Definition last_rows (table : DataFrame) (key_attr_index : nat) : DataFrame :=
  {| columns := columns table;
     itertuples := dict_values (build_dict (itertuples table) key_attr_index) |}.

Section sizes.
Context {float : Type} (get_prefix_length : nat → string → float → nat).
Implicit Types (self : @PrefixFilter float) (ordering : gmap token nat).
Implicit Types (ltable rtable : DataFrame) (l r : attr_indices).

Lemma row_candidates_bound self ltable rtable l r (r_row : row) :
  length (row_candidates get_prefix_length self
            (tables_ordering self ltable rtable l r)
            (tables_index get_prefix_length self ltable rtable l r) r r_row)
  ≤ length (left_dict ltable l).
Proof.
  set (keys := (left_dict ltable l).*1).
  assert (length (left_dict ltable l) = size (list_to_set keys : gset value))
    as ->.
  { rewrite size_list_to_set by apply build_dict_keys_NoDup.
    unfold keys. by rewrite length_fmap. }
  unfold row_candidates. case_decide; [cbn; lia|].
  apply (subseteq_size (probe_candidates _ _) (list_to_set keys)).
  intros c. unfold probe_candidates. rewrite elem_of_union_list.
  intros (X & (tok & -> & _)%list_elem_of_fmap & Hc).
  unfold tables_index in Hc.
  destruct (tables_ordering_covers self ltable rtable l r) as [Hcov _].
  destruct (PrefixIndex_build_spec get_prefix_length self _
              (key_attr_index l) _ _ Hcov) as [_ Hprobe].
  rewrite Hprobe in Hc.
  apply elem_of_indexed_keys in Hc as (l_row & Hl & <- & _).
  apply elem_of_list_to_set. unfold keys, left_dict.
  rewrite <-build_dict_values_keys. by apply list_elem_of_fmap_2.
Qed.

Lemma candidate_pairs_bound self ordering (index : gmap token (gset value)) r
    (right_rows : list row) (bound : nat) :
  (∀ r_row, length (row_candidates get_prefix_length self ordering index r
                      r_row) ≤ bound) →
  length (candidate_pairs get_prefix_length self ordering index r right_rows)
  ≤ bound * length right_rows.
Proof.
  intros Hb. unfold candidate_pairs.
  induction right_rows as [|r_row right_rows IH]; [cbn; lia|].
  cbn. rewrite length_app, length_fmap. specialize (Hb r_row). lia.
Qed.

(** X8. The candidate table never has more rows than there are pairs of a
    left row and a right row; it has none when either table has none. *)
Theorem candidate_rows_bounded self ltable rtable
    l_key_attr r_key_attr l_filter_attr r_filter_attr
    l_out_attrs r_out_attrs l_out_prefix r_out_prefix out :
  filter_tables get_prefix_length self ltable rtable
    l_key_attr r_key_attr l_filter_attr r_filter_attr
    l_out_attrs r_out_attrs l_out_prefix r_out_prefix = Ok out →
  length (itertuples out)
  ≤ length (itertuples ltable) * length (itertuples rtable).
Proof.
  intros (l & r & _ & _ & -> & _)%filter_tables_Ok_inv.
  unfold tables_rows. rewrite length_numbered_rows. unfold tables_pairs.
  etrans.
  { apply (candidate_pairs_bound _ _ _ _ _ (length (left_dict ltable l))).
    intros r_row. apply row_candidates_bound. }
  unfold dict_values. rewrite length_fmap.
  pose proof (length_build_dict (itertuples ltable) (key_attr_index l)).
  pose proof (length_build_dict (itertuples rtable) (key_attr_index r)).
  unfold left_dict, right_dict. nia.
Qed.

(** X9. Rows shadowed by a later row with the same key play no part: the
    call on the tables cut down to the last row of each key ends as the
    call on the tables themselves. *)
Theorem shadowed_rows_ignored self ltable rtable
    l_key_attr r_key_attr l_filter_attr r_filter_attr
    l_out_attrs r_out_attrs l_out_prefix r_out_prefix l r :
  find_l_indices (columns ltable) l_key_attr l_filter_attr l_out_attrs = Ok l →
  find_r_indices (columns rtable) r_key_attr r_filter_attr r_out_attrs = Ok r →
  filter_tables_run get_prefix_length self
    (last_rows ltable (key_attr_index l)) (last_rows rtable (key_attr_index r))
    l_key_attr r_key_attr l_filter_attr r_filter_attr
    l_out_attrs r_out_attrs l_out_prefix r_out_prefix
  = filter_tables_run get_prefix_length self ltable rtable
      l_key_attr r_key_attr l_filter_attr r_filter_attr
      l_out_attrs r_out_attrs l_out_prefix r_out_prefix.
Proof.
  intros Hl Hr.
  rewrite (filter_tables_run_found get_prefix_length self ltable rtable
             _ _ _ _ _ _ _ _ l r Hl Hr).
  rewrite (filter_tables_run_found get_prefix_length self
             (last_rows ltable (key_attr_index l))
             (last_rows rtable (key_attr_index r))
             _ _ _ _ _ _ _ _ l r Hl Hr).
  unfold tables_rows, tables_pairs, tables_index, tables_ordering,
    left_dict, right_dict, last_rows. cbn [itertuples].
  by rewrite !build_dict_idem.
Qed.

End sizes.

Section left_order.
Context {float : Type} (get_prefix_length : nat → string → float → nat).
Implicit Types (self : @PrefixFilter float) (ordering : gmap token nat).
Implicit Types (ltable rtable : DataFrame) (l r : attr_indices).

Lemma indexed_keys_perm self ordering key_attr index_attr
    (table table' : list row) tok :
  table' ≡ₚ table →
  indexed_keys get_prefix_length self ordering key_attr index_attr table' tok
  = indexed_keys get_prefix_length self ordering key_attr index_attr table tok.
Proof.
  intros Hp. apply set_eq. intros k. rewrite !elem_of_indexed_keys.
  by setoid_rewrite Hp.
Qed.

Lemma row_candidates_probe_ext self ordering
    (index index' : gmap token (gset value)) r (r_row : row) :
  (∀ tok, probe index' tok = probe index tok) →
  row_candidates get_prefix_length self ordering index' r r_row
  = row_candidates get_prefix_length self ordering index r r_row.
Proof.
  intros Hp. unfold row_candidates, probe_candidates.
  case_decide; [done|]. do 2 f_equal. apply list_fmap_ext. by intros.
Qed.

Lemma candidate_pairs_probe_ext self ordering
    (index index' : gmap token (gset value)) r (right_rows : list row) :
  (∀ tok, probe index' tok = probe index tok) →
  candidate_pairs get_prefix_length self ordering index' r right_rows
  = candidate_pairs get_prefix_length self ordering index r right_rows.
Proof.
  intros Hp. unfold candidate_pairs.
  induction right_rows as [|r_row right_rows IH]; [done|].
  cbn. by rewrite IH, (row_candidates_probe_ext _ _ index index').
Qed.

(** X10. When the keys of the left table are distinct, the order of its rows
    does not change the pairs of the candidate table. *)
Theorem left_row_order_same_pairs self ltable ltable' rtable
    l_key_attr r_key_attr l_filter_attr r_filter_attr
    l_out_attrs r_out_attrs l_out_prefix r_out_prefix l r :
  find_l_indices (columns ltable) l_key_attr l_filter_attr l_out_attrs = Ok l →
  find_r_indices (columns rtable) r_key_attr r_filter_attr r_out_attrs = Ok r →
  columns ltable' = columns ltable →
  itertuples ltable' ≡ₚ itertuples ltable →
  NoDup ((λ l_row : row, l_row !!! key_attr_index l) <$> itertuples ltable) →
  ∃ out out',
    filter_tables get_prefix_length self ltable rtable
      l_key_attr r_key_attr l_filter_attr r_filter_attr
      l_out_attrs r_out_attrs l_out_prefix r_out_prefix = Ok out
    ∧ filter_tables get_prefix_length self ltable' rtable
        l_key_attr r_key_attr l_filter_attr r_filter_attr
        l_out_attrs r_out_attrs l_out_prefix r_out_prefix = Ok out'
    ∧ row_pair <$> itertuples out' ≡ₚ row_pair <$> itertuples out.
Proof.
  intros Hl Hr Hcols Hperm Hnd.
  assert (find_l_indices (columns ltable') l_key_attr l_filter_attr l_out_attrs
          = Ok l) as Hl' by (by rewrite Hcols).
  assert (NoDup ((λ l_row : row, l_row !!! key_attr_index l)
                 <$> itertuples ltable')) as Hnd' by (by rewrite Hperm).
  assert (dict_values (left_dict ltable l) = itertuples ltable) as Hd
    by (by apply build_dict_distinct).
  assert (dict_values (left_dict ltable' l) = itertuples ltable') as Hd'
    by (by apply build_dict_distinct).
  assert (tables_ordering self ltable' rtable l r
          = tables_ordering self ltable rtable l r) as Hord.
  { unfold tables_ordering, gen_token_ordering_for_tables.
    apply build_token_ordering_perm. cbn. by rewrite Hd, Hd', Hperm. }
  do 2 eexists. split.
  { unfold filter_tables.
    by rewrite (filter_tables_run_found get_prefix_length self ltable rtable
                  _ _ _ _ _ _ _ _ l r Hl Hr). }
  split.
  { unfold filter_tables.
    by rewrite (filter_tables_run_found get_prefix_length self ltable' rtable
                  _ _ _ _ _ _ _ _ l r Hl' Hr). }
  cbn [itertuples]. unfold tables_rows. rewrite !numbered_rows_pairs.
  unfold tables_pairs. rewrite Hord.
  rewrite (candidate_pairs_probe_ext self _
             (tables_index get_prefix_length self ltable rtable l r)
             (tables_index get_prefix_length self ltable' rtable l r));
    [done|].
  intros tok. unfold tables_index. rewrite Hord.
  destruct (tables_ordering_covers self ltable rtable l r) as [Hcov _].
  assert (covers self (tables_ordering self ltable rtable l r)
            (filter_attr_index l) (dict_values (left_dict ltable' l))) as Hcov'.
  { intros x t Hx. apply Hcov. by rewrite Hd, <-Hperm, <-Hd'. }
  destruct (PrefixIndex_build_spec get_prefix_length self _
              (key_attr_index l) _ _ Hcov) as [_ ->].
  destruct (PrefixIndex_build_spec get_prefix_length self _
              (key_attr_index l) _ _ Hcov') as [_ ->].
  apply indexed_keys_perm. by rewrite Hd, Hd'.
Qed.

(** X11. When the prefix length is never below the number of tokens nothing
    is pruned: the table holds a pair exactly when the two rows kept for
    its keys have a text and their texts have a token in common. *)
Theorem full_prefixes_pair_common_tokens self ltable rtable
    l_key_attr r_key_attr l_filter_attr r_filter_attr
    l_out_attrs r_out_attrs l_out_prefix r_out_prefix l r :
  (∀ n, n ≤ get_prefix_length n (sim_measure_type self) (threshold self)) →
  find_l_indices (columns ltable) l_key_attr l_filter_attr l_out_attrs = Ok l →
  find_r_indices (columns rtable) r_key_attr r_filter_attr r_out_attrs = Ok r →
  ∃ out,
    filter_tables get_prefix_length self ltable rtable
      l_key_attr r_key_attr l_filter_attr r_filter_attr
      l_out_attrs r_out_attrs l_out_prefix r_out_prefix = Ok out
    ∧ ∀ l_id r_id,
        (l_id, r_id) ∈ row_pair <$> itertuples out
        ↔ ∃ l_row r_row,
            l_row ∈ dict_values (left_dict ltable l)
            ∧ r_row ∈ dict_values (right_dict rtable r)
            ∧ l_row !!! key_attr_index l = l_id
            ∧ r_row !!! key_attr_index r = r_id
            ∧ is_empty_field (l_row !!! filter_attr_index l) = false
            ∧ str (r_row !!! filter_attr_index r) ≠ EmptyString
            ∧ ∃ t, t ∈ tokenizer self (str (l_row !!! filter_attr_index l))
                   ∧ t ∈ tokenizer self (str (r_row !!! filter_attr_index r)).
Proof.
  intros Hfull Hl Hr. eexists. split.
  { unfold filter_tables.
    by rewrite (filter_tables_run_found get_prefix_length self ltable rtable
                  _ _ _ _ _ _ _ _ l r Hl Hr). }
  cbn [itertuples]. intros l_id r_id. rewrite elem_of_tables_rows_pairs.
  destruct (tables_ordering_covers self ltable rtable l r) as [Hcl Hcr].
  assert (∀ attr (table : list row) (x : row) t,
            covers self (tables_ordering self ltable rtable l r) attr table →
            x ∈ table →
            t ∈ prefix_tokens get_prefix_length self
                  (tables_ordering self ltable rtable l r) (str (x !!! attr))
            ↔ t ∈ tokenizer self (str (x !!! attr))) as Hall.
  { intros attr table x t Hcov Hx. unfold prefix_tokens.
    rewrite take_ge by apply Hfull.
    destruct (ordered_tokens_ok self (tables_ordering self ltable rtable l r)
                (str (x !!! attr))) as [_ ->].
    { intros t' Ht'. by apply (Hcov x t'). }
    unfold token_set. set_solver. }
  unfold prefixes_meet, share_token. split.
  - intros (l_row & r_row & Hl_row & Hr_row & Hkl & Hkr & He & Hne & t & Htl & Htr).
    exists l_row, r_row. repeat (split; [done|]). exists t.
    split; [by apply (Hall _ _ _ _ Hcl Hl_row)|by apply (Hall _ _ _ _ Hcr Hr_row)].
  - intros (l_row & r_row & Hl_row & Hr_row & Hkl & Hkr & He & Hne & t & Htl & Htr).
    exists l_row, r_row. repeat (split; [done|]). exists t.
    split; [by apply (Hall _ _ _ _ Hcl Hl_row)|by apply (Hall _ _ _ _ Hcr Hr_row)].
Qed.

End left_order.

(** ** The further properties on concrete tables *)

(** A prefix length that prunes nothing. *)
Definition whole_prefix_length (n : nat) (measure : string) (percent : nat)
    : nat := n.

(** [mice] with its last row first. *)
Definition mice_rearranged : DataFrame :=
  {| columns := ["id"; "name"];
     itertuples := [[VInt 3; VStr "optical mouse"];
                    [VInt 1; VStr "mouse"];
                    [VInt 2; VStr "keyboard"]] |}.

Definition id_name_indices : attr_indices :=
  {| key_attr_index := 0; filter_attr_index := 1; out_attrs_indices := [] |}.

Lemma filter_pair_kept_share_token_witness :
  ∃ t, t ∈ whitespace_tokenizer "mouse pad"
       ∧ t ∈ whitespace_tokenizer "optical mouse".
Proof.
  apply (filter_pair_kept_share_token percent_prefix_length (jaccard_filter 30)
           (Some "mouse pad") (Some "optical mouse")).
  vm_compute. reflexivity.
Defined.

Lemma filter_pair_longer_prefixes_keep_witness :
  filter_pair whole_prefix_length (jaccard_filter 30)
    (Some "mouse pad") (Some "optical mouse") = Ok false.
Proof.
  apply (filter_pair_longer_prefixes_keep percent_prefix_length
           whole_prefix_length (jaccard_filter 30)).
  - intros n. apply Nat.le_min_l.
  - vm_compute. reflexivity.
Defined.

Lemma list_index_first_witness :
  ["id"; "name"; "name"] !! 1 = Some "name"
  ∧ ∀ j, j < 1 → ["id"; "name"; "name"] !! j ≠ Some "name".
Proof.
  apply (list_index_first "name" ["id"; "name"; "name"] 1). reflexivity.
Defined.

Lemma emitted_pairs_pass_prefix_test_witness :
  ∃ out,
    filter_tables percent_prefix_length (jaccard_filter 30) mice pads
      "id" "id" "name" "name" None None "l_" "r_" = Ok out.
Proof.
  destruct (emitted_pairs_pass_prefix_test percent_prefix_length
              (jaccard_filter 30) mice pads
              "id" "id" "name" "name" None None "l_" "r_"
              id_name_indices id_name_indices eq_refl eq_refl)
    as (out & Hout & _).
  by exists out.
Defined.

Lemma empty_text_never_paired_witness :
  ∃ l_row r_row,
    last_row_with_key (itertuples mice) 0 (VInt 1) = Some l_row
    ∧ last_row_with_key (itertuples pads) 0 (VInt 3) = Some r_row
    ∧ l_row !!! 1 ≠ VNone
    ∧ str (l_row !!! 1) ≠ EmptyString
    ∧ str (r_row !!! 1) ≠ EmptyString.
Proof.
  apply (empty_text_never_paired percent_prefix_length (jaccard_filter 30)
           mice pads "id" "id" "name" "name" None None "l_" "r_"
           mice_pads_candidates id_name_indices id_name_indices
           (VInt 1) (VInt 3) eq_refl eq_refl mice_pads_filter_tables).
  by_compute.
Defined.

Lemma candidate_rows_bounded_witness :
  length (itertuples mice_pads_candidates)
  ≤ length (itertuples mice) * length (itertuples pads).
Proof.
  exact (candidate_rows_bounded percent_prefix_length (jaccard_filter 30)
           mice pads "id" "id" "name" "name" None None "l_" "r_"
           mice_pads_candidates mice_pads_filter_tables).
Defined.

Lemma shadowed_rows_ignored_witness :
  filter_tables_run percent_prefix_length (jaccard_filter 30)
    (last_rows twice_one 0) (last_rows twice_one_rearranged 0)
    "id" "id" "name" "name" None None "l_" "r_"
  = filter_tables_run percent_prefix_length (jaccard_filter 30)
      twice_one twice_one_rearranged
      "id" "id" "name" "name" None None "l_" "r_".
Proof.
  exact (shadowed_rows_ignored percent_prefix_length (jaccard_filter 30)
           twice_one twice_one_rearranged
           "id" "id" "name" "name" None None "l_" "r_"
           id_name_indices id_name_indices eq_refl eq_refl).
Defined.

Lemma left_row_order_same_pairs_witness :
  ∃ out out',
    filter_tables percent_prefix_length (jaccard_filter 30) mice pads
      "id" "id" "name" "name" None None "l_" "r_" = Ok out
    ∧ filter_tables percent_prefix_length (jaccard_filter 30) mice_rearranged
        pads "id" "id" "name" "name" None None "l_" "r_" = Ok out'
    ∧ row_pair <$> itertuples out' ≡ₚ row_pair <$> itertuples out.
Proof.
  apply (left_row_order_same_pairs percent_prefix_length (jaccard_filter 30)
           mice mice_rearranged pads
           "id" "id" "name" "name" None None "l_" "r_"
           id_name_indices id_name_indices).
  - reflexivity.
  - reflexivity.
  - reflexivity.
  - cbn. apply (Permutation_cons_append [_; _]).
  - by_compute.
Defined.

Lemma full_prefixes_pair_common_tokens_witness :
  ∃ out,
    filter_tables whole_prefix_length (jaccard_filter 30) mice pads
      "id" "id" "name" "name" None None "l_" "r_" = Ok out.
Proof.
  destruct (full_prefixes_pair_common_tokens whole_prefix_length
              (jaccard_filter 30) mice pads
              "id" "id" "name" "name" None None "l_" "r_"
              id_name_indices id_name_indices)
    as (out & Hout & _).
  - intros n. apply Nat.le_refl.
  - reflexivity.
  - reflexivity.
  - by exists out.
Defined.

(** * Repeated calls, and the order of a set *)

Section repeated_calls.
Context {float : Type} (get_prefix_length : nat → string → float → nat).
Implicit Types (self : @PrefixFilter float) (ordering : gmap token nat).
Implicit Types (ltable rtable : DataFrame) (l r : attr_indices).
Implicit Types (iter : row → gset value → list value).















End repeated_calls.

(** * Tables with a key in several rows *)

Section last_rows_kept.
Context {float : Type} (get_prefix_length : nat → string → float → nat).
Implicit Types (self : @PrefixFilter float) (ordering : gmap token nat).
Implicit Types (ltable rtable : DataFrame) (l r : attr_indices).

(** The values of the dictionary of a table are the rows that are the
    last of the table with their key. *)
Lemma elem_of_build_dict_values rows i (x : row) :
  x ∈ dict_values (build_dict rows i)
  ↔ last_row_with_key rows i (x !!! i) = Some x.
Proof.
  split; [apply build_dict_values_last|].
  unfold last_row_with_key. rewrite <-build_dict_lookup.
  intros Hx%dict_lookup_Some. unfold dict_values.
  apply list_elem_of_fmap. by exists (x !!! i, x).
Qed.

Lemma last_row_with_key_key rows i k (x : row) :
  last_row_with_key rows i k = Some x → x !!! i = k.
Proof.
  unfold last_row_with_key. rewrite <-build_dict_lookup.
  intros Hx%dict_lookup_Some. by apply build_dict_elem in Hx as [_ ?].
Qed.

(** Every key of a table is a key of its dictionary. *)
Lemma build_dict_values_cover rows i (x : row) :
  x ∈ rows →
  ∃ kept, kept ∈ dict_values (build_dict rows i) ∧ kept !!! i = x !!! i.
Proof.
  intros Hx. destruct (build_dict_lookup_is_Some rows i x Hx) as [kept Hk].
  apply dict_lookup_Some in Hk. exists kept. split.
  - unfold dict_values. apply list_elem_of_fmap. by exists (x !!! i, kept).
  - by apply build_dict_elem in Hk as [_ ?].
Qed.

(** C9. A table may hold several rows with one key: [filter_tables]
    raises nothing and keeps, for each key, the last row that bears it.
    Both dictionaries map every key to the last row of their table with
    that key.  The probe loop runs once for each key of the right table:
    over rows with distinct keys, which are exactly the rows that are the
    last of the right table with their key.  The returned table pairs a
    left key and a right key exactly when the last rows bearing them pass
    the prefix test, and the values of each output row come from those
    last rows. *)
Theorem duplicate_keys_keep_last_row self ltable rtable
    l_key_attr r_key_attr l_filter_attr r_filter_attr
    l_out_attrs r_out_attrs l_out_prefix r_out_prefix l r :
  find_l_indices (columns ltable) l_key_attr l_filter_attr l_out_attrs = Ok l →
  find_r_indices (columns rtable) r_key_attr r_filter_attr r_out_attrs = Ok r →
  let probed := dict_values (right_dict rtable r) in
  let last_left := last_row_with_key (itertuples ltable) (key_attr_index l) in
  let last_right := last_row_with_key (itertuples rtable) (key_attr_index r) in
  (∀ k, dict_lookup (left_dict ltable l) k = last_left k)
  ∧ (∀ k, dict_lookup (right_dict rtable r) k = last_right k)
  ∧ NoDup ((λ r_row : row, r_row !!! key_attr_index r) <$> probed)
  ∧ (∀ r_row, r_row ∈ probed
              ↔ last_right (r_row !!! key_attr_index r) = Some r_row)
  ∧ (∀ x, x ∈ itertuples rtable →
          ∃ r_row, r_row ∈ probed
                   ∧ r_row !!! key_attr_index r = x !!! key_attr_index r)
  ∧ ∃ out,
      filter_tables get_prefix_length self ltable rtable
        l_key_attr r_key_attr l_filter_attr r_filter_attr
        l_out_attrs r_out_attrs l_out_prefix r_out_prefix = Ok out
      ∧ (∀ l_id r_id,
           (l_id, r_id) ∈ row_pair <$> itertuples out
           ↔ ∃ l_row r_row,
               last_left l_id = Some l_row
               ∧ last_right r_id = Some r_row
               ∧ prefixes_meet get_prefix_length self
                   (tables_ordering self ltable rtable l r) l r l_row r_row)
      ∧ ∀ i out_row, itertuples out !! i = Some out_row →
          ∃ cand l_row r_row,
            last_left cand = Some l_row
            ∧ last_right (r_row !!! key_attr_index r) = Some r_row
            ∧ out_row
              = if has_output_attributes l_out_attrs r_out_attrs
                then get_output_row_from_tables (Z.of_nat i + 1) l_row r_row
                       cand (r_row !!! key_attr_index r)
                       (out_attrs_indices l) (out_attrs_indices r)
                else [VInt (Z.of_nat i + 1); cand; r_row !!! key_attr_index r].
Proof.
  intros Hl Hr probed last_left last_right.
  split; [intros k; apply build_dict_lookup|].
  split; [intros k; apply build_dict_lookup|].
  split; [apply right_dict_values_NoDup|].
  split; [intros r_row; apply elem_of_build_dict_values|].
  split; [intros x Hx; by apply build_dict_values_cover|].
  eexists. split.
  { unfold filter_tables.
    by rewrite (filter_tables_run_found get_prefix_length self ltable rtable
                  _ _ _ _ _ _ _ _ l r Hl Hr). }
  cbn [itertuples]. split.
  - intros l_id r_id. rewrite elem_of_tables_rows_pairs. split.
    + intros (l_row & r_row & Hl_row & Hr_row & <- & <- & Hm).
      exists l_row, r_row.
      split; [by apply elem_of_build_dict_values|].
      split; [by apply elem_of_build_dict_values|done].
    + intros (l_row & r_row & Hl_row & Hr_row & Hm).
      pose proof (last_row_with_key_key _ _ _ _ Hl_row) as Hkl.
      pose proof (last_row_with_key_key _ _ _ _ Hr_row) as Hkr.
      exists l_row, r_row. subst l_id r_id.
      split; [by apply elem_of_build_dict_values|].
      split; [by apply elem_of_build_dict_values|done].
  - intros i out_row ([cand r_row] & Hp & ->)%numbered_rows_lookup.
    apply list_elem_of_lookup_2 in Hp.
    pose proof (tables_pairs_known get_prefix_length _ _ _ _ _ _ Hp)
      as [l_row Hlrow].
    apply elem_of_candidate_pairs in Hp as [Hrrow _]. cbn in Hrrow, Hlrow.
    exists cand, l_row, r_row.
    unfold left_dict in Hlrow. rewrite build_dict_lookup in Hlrow.
    split; [done|]. split; [by apply elem_of_build_dict_values|].
    unfold output_row. cbn [fst snd]. unfold left_dict.
    rewrite build_dict_lookup. fold last_left. rewrite Hlrow. cbn [default].
    replace (1 + Z.of_nat i)%Z with (Z.of_nat i + 1)%Z by lia. done.
Qed.

End last_rows_kept.

(** * The claims on repeated calls and on repeated keys, on tables *)



Definition twice_one_left : DataFrame :=
  {| columns := ["id"; "name"];
     itertuples := [[VInt 1; VStr "keyboard"]; [VInt 1; VStr "mouse"]] |}.








Lemma duplicate_keys_keep_last_row_witness :
  ∃ out,
    filter_tables percent_prefix_length (jaccard_filter 30) twice_one_left
      twice_one_rearranged "id" "id" "name" "name" (Some ["name"]) None
      "l_" "r_" = Ok out
    ∧ out = {| columns := ["_id"; "l_id"; "r_id"; "l_name"];
               itertuples := [[VInt 1; VInt 1; VInt 1; VStr "mouse"]] |}.
Proof.
  destruct (duplicate_keys_keep_last_row percent_prefix_length
              (jaccard_filter 30) twice_one_left twice_one_rearranged
              "id" "id" "name" "name" (Some ["name"]) None "l_" "r_"
              {| key_attr_index := 0; filter_attr_index := 1;
                 out_attrs_indices := [1] |}
              id_name_indices eq_refl eq_refl)
    as (_ & _ & _ & _ & _ & out & Hout & _).
  exists out. split; [exact Hout|].
  assert (filter_tables percent_prefix_length (jaccard_filter 30)
            twice_one_left twice_one_rearranged
            "id" "id" "name" "name" (Some ["name"]) None "l_" "r_"
          = Ok {| columns := ["_id"; "l_id"; "r_id"; "l_name"];
                  itertuples := [[VInt 1; VInt 1; VInt 1; VStr "mouse"]] |})
    as Hcomp by (vm_compute; reflexivity).
  rewrite Hcomp in Hout. by injection Hout.
Defined.
